(** * Portman: synchronising a collection with the Postman service

    A shallow embedding of [Portman.syncCollectionToPostman] and of the
    [PostmanService] methods it calls ([createCollection],
    [updateCollection], [findCollectionByName]), from [src/Portman.ts].

    Modelling scope.
    - Strings are ASCII strings: [toLowerCase] lowers [A-Z] and the
      whitespace class [\s] is space, tab, line feed, vertical tab, form
      feed and carriage return.
    - The collection has a name ([portmanCollection.info.name] is a
      string), and the name is not a member of [Object.prototype].
    - [updatedAt] is the number [new Date(o.updatedAt)] converts to; all
      dates are taken to be valid.
    - The cache file [.portman.cache] is either absent, unparsable, or a
      JSON object as the engine itself writes it: a map from names to
      [{ name, uid }] records whose fields may be missing. A file holding
      other JSON is outside the model; on one holding [null] the method,
      once it takes the path that reads the cache, throws a TypeError at
      [portmanCache[collName]] before any request.
    - The network and the disk are an environment of type [Env] with one
      deterministic oracle per operation.
    - Console output that only formats (chalk, the spinner, the ruler
      ['='.repeat(process.stdout.columns - 80)]) is left out; the lines
      that report something are events of the log.
    - The method is recursive without a measure, so the model takes fuel:
      the depth of recursion it may use. *)

From Stdlib Require Import ZArith Ascii String List Lia Sorted Permutation.
From stdpp Require Import gmap strings list fin_maps.

Local Open Scope string_scope.
Local Open Scope list_scope.

(** ** JavaScript values the engine inspects *)

(** Truthiness of an optional string property: [undefined] and the empty
    string are falsy. *)
Definition truthy (o : option string) : bool :=
  match o with
  | Some s => negb (String.eqb s "")
  | None => false
  end.

(** One element of [data.collections] in the listing response. *)
Record Summary := mkSummary {
  s_name : option string;
  s_uid : option string;
  s_updatedAt : Z
}.

(** A value of the cache object: [{ name: collName, uid: ... }]. *)
Record Entry := mkEntry {
  e_name : option string;
  e_uid : option string
}.

Abbreviation Cache := (gmap string Entry).

(** [data.collection] of a create or update response. *)
Record CollectionRef := mkCollectionRef {
  c_name : option string;
  c_uid : option string
}.

(** The body of a create or update response ([res.data]) or of an error
    response ([error.response.data]). *)
Record Payload := mkPayload {
  p_collection : option CollectionRef;
  p_error : option string
}.

(** [data?.collection?.uid] and [data?.collection?.name]. *)
Definition collection_uid (data : option Payload) : option string :=
  match data with
  | Some p => match p_collection p with Some c => c_uid c | None => None end
  | None => None
  end.

Definition collection_name (data : option Payload) : option string :=
  match data with
  | Some p => match p_collection p with Some c => c_name c | None => None end
  | None => None
  end.

(** [data?.error]. *)
Definition data_error (data : option Payload) : option string :=
  match data with
  | Some p => p_error p
  | None => None
  end.

(** The body of a listing response. *)
Record Listing := mkListing {
  collections : option (list Summary)
}.

(** A thrown JavaScript error: what [error.toString()] prints and
    [error?.response?.data]. *)
Record JsError := mkJsError {
  err_toString : string;
  err_response_data : option Payload
}.

(** A settled promise. *)
Inductive Settled (A : Type) : Type :=
| Fulfilled (a : A)
| Rejected (e : JsError).
Arguments Fulfilled {A} a.
Arguments Rejected {A} e.

Definition is_fulfilled {A} (s : Settled A) : bool :=
  match s with Fulfilled _ => true | Rejected _ => false end.

(** The status discriminator of the structured responses. *)
Inductive Status := success | fail.

Definition Status_eqb (a b : Status) : bool :=
  match a, b with
  | success, success | fail, fail => true
  | _, _ => false
  end.

(** [{ status, data }]. *)
Record Resp := mkResp {
  status : Status;
  data : option Payload
}.

(** [respData]: the initial [''] or the text [JSON.stringify] produced. *)
Inductive RespData :=
| empty_text
| json_text (r : Resp).

(** [CollectionDefinition], of which the engine reads [info.name]. *)
Record CollectionDefinition := mkCollection {
  info_name : string;
  item : list string
}.

(** [PortmanOptions], of which the engine reads two fields. *)
Record PortmanOptions := mkOptions {
  syncPostman : bool;
  postmanUid : option string
}.

Record Portman := mkPortman {
  options : PortmanOptions;
  portmanCollection : CollectionDefinition
}.

(** ** Name normalisation: [s.toLowerCase().replace(/\s/g, '')] *)

Definition is_upper (c : ascii) : bool :=
  (65 <=? nat_of_ascii c)%nat && (nat_of_ascii c <=? 90)%nat.

Definition lower_ascii (c : ascii) : ascii :=
  if is_upper c then ascii_of_nat (nat_of_ascii c + 32) else c.

Fixpoint toLowerCase (s : string) : string :=
  match s with
  | EmptyString => EmptyString
  | String c r => String (lower_ascii c) (toLowerCase r)
  end.

Definition is_space (c : ascii) : bool :=
  (Ascii.eqb c " " || Ascii.eqb c "009" || Ascii.eqb c "010"
   || Ascii.eqb c "011" || Ascii.eqb c "012" || Ascii.eqb c "013")%char.

Fixpoint remove_whitespace (s : string) : string :=
  match s with
  | EmptyString => EmptyString
  | String c r =>
      if is_space c then remove_whitespace r
      else String c (remove_whitespace r)
  end.

Definition normalize (s : string) : string :=
  remove_whitespace (toLowerCase s).

(** The predicate given to [data.collections.filter]. *)
Definition name_matches (collName : string) (o : Summary) : bool :=
  if negb (truthy (s_name o)) then false
  else match s_name o with
       | Some n => String.eqb (normalize n) (normalize collName)
       | None => false
       end.

(** ** [Array.prototype.sort]: a stable sort by a comparator *)

Fixpoint insert_sorted {A} (cmp : A -> A -> Z) (x : A) (l : list A) : list A :=
  match l with
  | [] => [x]
  | y :: ys =>
      if (cmp x y <=? 0)%Z then x :: y :: ys
      else y :: insert_sorted cmp x ys
  end.

Definition sort {A} (cmp : A -> A -> Z) (l : list A) : list A :=
  foldr (insert_sorted cmp) [] l.

(** [(a, b) => new Date(b.updatedAt) - new Date(a.updatedAt)]. *)
Definition by_date_desc (a b : Summary) : Z :=
  (s_updatedAt b - s_updatedAt a)%Z.

(** What [findCollectionByName] resolves to: a listed summary, the empty
    object [{}], or the text of a caught error. *)
Inductive Found :=
| FoundMatch (m : Summary)
| FoundNone
| FoundError (text : string).

(** [matches[0]]. *)
Definition first_of (matches : list Summary) : Found :=
  match matches with
  | m :: _ => FoundMatch m
  | [] => FoundNone
  end.

(** [remoteCollection]: a cache value or a result of the lookup by name. *)
Inductive RemoteCollection :=
| FromCache (e : Entry)
| FromListing (f : Found).

(** [remoteCollection?.uid]. *)
Definition remote_uid (r : RemoteCollection) : option string :=
  match r with
  | FromCache e => e_uid e
  | FromListing (FoundMatch m) => s_uid m
  | FromListing FoundNone => None
  | FromListing (FoundError _) => None
  end.

(** ** The world: network, disk, cache file and log *)

Inductive FileContent :=
| NoFile
| Unparsable
| CacheJson (c : Cache).

Inductive Request :=
| PUT (uid : string)
| POST
| GET.

(** The log, most recent event first. [EvAxios], [EvRead] and [EvWrite]
    record what the method did to the outside: a request and whether it
    was fulfilled, the load of the cache file with the cache it left in
    [portmanCache], a write of the cache file and whether it succeeded.
    The other events are the lines the method prints. *)
Inductive Event :=
| EvAxios (r : Request) (fulfilled : bool)
| EvRead (loaded : Cache)
| EvWrite (c : Cache) (written : bool)
| EvWarnMultiple (collName : string)
| EvLogError (d : option Payload)
| EvLogCreate (d : option Payload)
| EvReportSuccess (name uid : option string)
| EvReportFail (collUid : string) (error : option string).

(** What the cache block leaves in [portmanCache]. *)
Definition loaded (f : FileContent) : Cache :=
  match f with
  | CacheJson c => c
  | NoFile | Unparsable => ∅
  end.

(** Events that only print. *)
Definition is_console (e : Event) : bool :=
  match e with
  | EvAxios _ _ | EvRead _ | EvWrite _ _ => false
  | _ => true
  end.

Definition is_write (e : Event) : bool :=
  match e with EvWrite _ _ => true | _ => false end.

Definition is_put (e : Event) : bool :=
  match e with EvAxios (PUT _) _ => true | _ => false end.

Definition is_post_ok (e : Event) : bool :=
  match e with EvAxios POST true => true | _ => false end.

Definition is_request (e : Event) : bool :=
  match e with EvAxios _ _ => true | _ => false end.

Fixpoint count (p : Event -> bool) (l : list Event) : nat :=
  match l with
  | [] => 0
  | e :: r => (if p e then 1 else 0) + count p r
  end.


Fixpoint last_read (lg : list Event) : option Cache :=
  match lg with
  | [] => None
  | EvRead c :: _ => Some c
  | _ :: rest => last_read rest
  end.


(** Every write of the cache comes right after the update it follows, or
    right after the printed response of a fulfilled create. *)
Fixpoint writes_placed (lg : list Event) : Prop :=
  match lg with
  | [] => True
  | EvWrite _ _ :: rest =>
      match rest with
      | EvAxios (PUT _) _ :: _ => True
      | EvLogCreate _ :: EvAxios POST true :: _ => True
      | _ => False
      end /\ writes_placed rest
  | _ :: rest => writes_placed rest
  end.

(** Every listing request comes right after a load that has no item for
    the name. *)
Fixpoint listings_follow_miss (collName : string) (lg : list Event) : Prop :=
  match lg with
  | [] => True
  | EvAxios GET _ :: rest =>
      match rest with
      | EvRead c :: _ => c !! collName = None
      | _ => False
      end /\ listings_follow_miss collName rest
  | _ :: rest => listings_follow_miss collName rest
  end.

(** Every write differs from the cache last loaded at the key [collName]
    only. *)
Fixpoint writes_keyed (collName : string) (lg : list Event) : Prop :=
  match lg with
  | [] => True
  | EvWrite c' _ :: rest =>
      match last_read rest with
      | Some c => forall k : string, k <> collName -> c' !! k = c !! k
      | None => False
      end /\ writes_keyed collName rest
  | _ :: rest => writes_keyed collName rest
  end.

(** ** A monad for state, exceptions and fuel *)

Section Engine.

(** The environment: the remote service and the disk. Each oracle gives
    the outcome of one operation and the environment after it. *)
Variable Env : Type.
Variable axios_put : CollectionDefinition -> string -> Env -> Settled (option Payload) * Env.
Variable axios_post : CollectionDefinition -> Env -> Settled (option Payload) * Env.
Variable axios_get : Env -> Settled (option Listing) * Env.
Variable disk_write : Env -> bool * Env.

Record World := mkWorld {
  env : Env;
  cache_file : FileContent;
  log : list Event
}.

Inductive Result (A : Type) : Type :=
| Returned (a : A) (w : World)
| Thrown (e : JsError) (w : World)
| OutOfFuel (w : World).
Arguments Returned {A} a w.
Arguments Thrown {A} e w.
Arguments OutOfFuel {A} w.

Definition M (A : Type) : Type := World -> Result A.

Definition ret {A} (a : A) : M A := fun w => Returned a w.

Definition throw {A} (e : JsError) : M A := fun w => Thrown e w.

Definition bind {A B} (m : M A) (k : A -> M B) : M B :=
  fun w =>
    match m w with
    | Returned a w' => k a w'
    | Thrown e w' => Thrown e w'
    | OutOfFuel w' => OutOfFuel w'
    end.

(** [try { m } catch (error) { h error }]. *)
Definition try_catch {A} (m : M A) (h : JsError -> M A) : M A :=
  fun w =>
    match m w with
    | Returned a w' => Returned a w'
    | Thrown e w' => h e w'
    | OutOfFuel w' => OutOfFuel w'
    end.

Notation "x <-- m ;; k" := (bind m (fun x => k))
  (at level 100, m at next level, right associativity).
Notation "m ;;; k" := (bind m (fun _ => k))
  (at level 100, right associativity).

Definition final_world {A} (r : Result A) : World :=
  match r with
  | Returned _ w => w
  | Thrown _ w => w
  | OutOfFuel w => w
  end.

(** Adds an event to the log. *)
Definition emit (e : Event) : M unit :=
  fun w => Returned tt (mkWorld (env w) (cache_file w) (e :: log w)).

(** [console.log]. *)
Definition console_log (e : Event) : M unit := emit e.

(** [await axios(config)] for the three requests the service builds. *)
Definition settle {A} (r : Request) (s : Settled A) (e' : Env) : M A :=
  fun w =>
    let w' := mkWorld e' (cache_file w) (EvAxios r (is_fulfilled s) :: log w) in
    match s with
    | Fulfilled a => Returned a w'
    | Rejected err => Thrown err w'
    end.

Definition axios_PUT (collection : CollectionDefinition) (uuid : string)
  : M (option Payload) :=
  fun w => let '(s, e') := axios_put collection uuid (env w) in settle (PUT uuid) s e' w.

Definition axios_POST (collection : CollectionDefinition) : M (option Payload) :=
  fun w => let '(s, e') := axios_post collection (env w) in settle POST s e' w.

Definition axios_GET : M (option Listing) :=
  fun w => let '(s, e') := axios_get (env w) in settle GET s e' w.

Definition ENOENT : JsError :=
  mkJsError "Error: ENOENT: no such file or directory" None.
Definition SyntaxError : JsError :=
  mkJsError "SyntaxError: Unexpected token in JSON" None.
Definition TypeError : JsError :=
  mkJsError "TypeError: Cannot read properties of undefined" None.
Definition EACCES : JsError :=
  mkJsError "Error: EACCES: permission denied" None.

(** [JSON.parse(fs.readFileSync(portmanCachePath, 'utf8').toString())]. *)
Definition parse_cache_file : M Cache :=
  fun w =>
    match cache_file w with
    | NoFile => Thrown ENOENT w
    | Unparsable => Thrown SyntaxError w
    | CacheJson c => Returned c w
    end.

(** [fs.writeFileSync(portmanCacheFile, JSON.stringify(portmanCache, null, 2), 'utf8')]:
    the whole file is replaced, or the call throws and the file is as it was. *)
Definition writeFileSync (portmanCache : Cache) : M unit :=
  fun w =>
    let '(ok, e') := disk_write (env w) in
    if ok then Returned tt (mkWorld e' (CacheJson portmanCache) (EvWrite portmanCache true :: log w))
    else Thrown EACCES (mkWorld e' (cache_file w) (EvWrite portmanCache false :: log w)).

(** [JSON.parse(respData)]. *)
Definition JSON_parse (respData : RespData) : M Resp :=
  match respData with
  | empty_text => throw SyntaxError
  | json_text r => ret r
  end.

(** [JSON.stringify({ status, data }, null, 2)]. *)
Definition JSON_stringify (st : Status) (d : option Payload) : RespData :=
  json_text (mkResp st d).

(** ** PostmanService *)

Definition createCollection (collection : CollectionDefinition) : M RespData :=
  try_catch
    (respData <-- axios_POST collection ;;
     ret (JSON_stringify success respData))
    (fun error => ret (JSON_stringify fail (err_response_data error))).

Definition updateCollection (collection : CollectionDefinition) (uuid : string)
  : M RespData :=
  try_catch
    (respData <-- axios_PUT collection uuid ;;
     ret (JSON_stringify success respData))
    (fun error => ret (JSON_stringify fail (err_response_data error))).

Definition findCollectionByName (collName : string) : M Found :=
  try_catch
    (res_data <-- axios_GET ;;
     data <-- match res_data with
              | Some d => ret d
              | None => throw TypeError
              end ;;
     match collections data with
     | Some data_collections =>
         let matches := List.filter (name_matches collName) data_collections in
         let match_ :=
           if (length matches =? 1)%nat then first_of matches else FoundNone in
         if (1 <? length matches)%nat then
           let matches := sort by_date_desc matches in
           console_log (EvWarnMultiple collName) ;;;
           ret (first_of matches)
         else ret match_
     | None => ret FoundNone
     end)
    (fun error =>
       console_log (EvLogError (err_response_data error)) ;;;
       ret (FoundError (err_toString error))).

(** ** Portman.syncCollectionToPostman *)

(** [{ [collName]: { name: collName, uid: data?.collection?.uid } }]. *)
Definition cache_item (collName : string) (data : option Payload) : Entry :=
  mkEntry (Some collName) (collection_uid data).

(** The body of the method; [self] is the recursive call
    [await this.syncCollectionToPostman()]. *)
Definition syncCollectionToPostman_body (self : M unit) (this : Portman) : M unit :=
  let portmanCollection := portmanCollection this in
  let syncPostman := syncPostman (options this) in
  let postmanUid := postmanUid (options this) in
  let portmanCache : Cache := ∅ in
  let respData := empty_text in
  if syncPostman then
    let collName := info_name portmanCollection in
    let collUid := collName in
    (* Handle postmanUid from options *)
    fixed <--
      (if truthy postmanUid then
         let collUid := default "" postmanUid in
         respData <-- updateCollection portmanCollection collUid ;;
         ret (collUid, respData)
       else ret (collUid, respData)) ;;
    let '(collUid, respData) := fixed in
    (* Handle non-fixed postmanUid from cache or by collection name *)
    respData <--
      (if negb (truthy postmanUid) then
         portmanCache <-- try_catch parse_cache_file (fun _ => ret portmanCache) ;;
         emit (EvRead portmanCache) ;;;
         remoteCollection <--
           match portmanCache !! collName with
           | Some e => ret (FromCache e)
           | None =>
               f <-- findCollectionByName collName ;;
               ret (FromListing f)
           end ;;
         if truthy (remote_uid remoteCollection) then
           (* Update collection by Uid *)
           respData <-- updateCollection portmanCollection
                          (default "" (remote_uid remoteCollection)) ;;
           r <-- JSON_parse respData ;;
           (* Update cache *)
           let portmanCache :=
             if Status_eqb (status r) fail then delete collName portmanCache
             else <[collName := cache_item collName (data r)]> portmanCache in
           (* Write portman cache *)
           try_catch (writeFileSync portmanCache) (fun _ => ret tt) ;;;
           (* Restart on invalid Postman Uid *)
           (if Status_eqb (status r) fail then self else ret tt) ;;;
           ret respData
         else
           (* Create collection *)
           respData <-- createCollection portmanCollection ;;
           r <-- JSON_parse respData ;;
           console_log (EvLogCreate (data r)) ;;;
           (if Status_eqb (status r) success then
              let portmanCache :=
                <[collName := cache_item collName (data r)]> portmanCache in
              try_catch (writeFileSync portmanCache) (fun _ => ret tt)
            else ret tt) ;;;
           ret respData
       else ret respData) ;;
    (* Process Postman API response as console output *)
    r <-- JSON_parse respData ;;
    if Status_eqb (status r) success then
      console_log (EvReportSuccess (collection_name (data r)) (collection_uid (data r)))
    else
      console_log (EvReportFail collUid (data_error (data r)))
  else ret tt.

(** The method itself; [fuel] bounds the depth of the recursion. *)
Fixpoint syncCollectionToPostman (fuel : nat) (this : Portman) : M unit :=
  match fuel with
  | O => fun w => OutOfFuel w
  | S fuel' =>
      syncCollectionToPostman_body (syncCollectionToPostman fuel' this) this
  end.

(** ** One attempt, as a transition *)

(** Identity resolution: from the log [lg] to the log after it, with
    [remoteCollection?.uid]. A cache value is used as it is; without one
    the listing is requested once. *)
Inductive Resolved (collName : string) (c : Cache) (lg : list Event)
  : list Event -> option string -> Prop :=
| resolved_hit (e : Entry) :
    c !! collName = Some e ->
    Resolved collName c lg (EvRead c :: lg) (e_uid e)
| resolved_miss (evs : list Event) (b : bool) (u : option string) :
    c !! collName = None ->
    forallb is_console evs = true ->
    Resolved collName c lg (evs ++ EvAxios GET b :: EvRead c :: lg) u.

(** The method run without its recursive call (fuel 1) on the path that
    resolves the identity: the four ways it ends, [OutOfFuel] standing
    for the point where the method calls itself. *)
Inductive Attempt (collName : string) (w : World) : Result unit -> Prop :=
| attempt_updated (lg : list Event) (u : option string) (d : option Payload)
    (e' : Env) (ok : bool) :
    Resolved collName (loaded (cache_file w)) (log w) lg u ->
    truthy u = true ->
    let c' := <[collName := cache_item collName d]> (loaded (cache_file w)) in
    Attempt collName w
      (Returned tt
         (mkWorld e' (if ok then CacheJson c' else cache_file w)
            (EvReportSuccess (collection_name d) (collection_uid d)
             :: EvWrite c' ok :: EvAxios (PUT (default "" u)) true :: lg)))
| attempt_update_failed (lg : list Event) (u : option string) (e' : Env) (ok : bool) :
    Resolved collName (loaded (cache_file w)) (log w) lg u ->
    truthy u = true ->
    let c' := delete collName (loaded (cache_file w)) in
    Attempt collName w
      (OutOfFuel
         (mkWorld e' (if ok then CacheJson c' else cache_file w)
            (EvWrite c' ok :: EvAxios (PUT (default "" u)) false :: lg)))
| attempt_created (lg : list Event) (u : option string) (d : option Payload)
    (e' : Env) (ok : bool) :
    Resolved collName (loaded (cache_file w)) (log w) lg u ->
    truthy u = false ->
    let c' := <[collName := cache_item collName d]> (loaded (cache_file w)) in
    Attempt collName w
      (Returned tt
         (mkWorld e' (if ok then CacheJson c' else cache_file w)
            (EvReportSuccess (collection_name d) (collection_uid d)
             :: EvWrite c' ok :: EvLogCreate d :: EvAxios POST true :: lg)))
| attempt_create_failed (lg : list Event) (u : option string) (d : option Payload)
    (e' : Env) :
    Resolved collName (loaded (cache_file w)) (log w) lg u ->
    truthy u = false ->
    Attempt collName w
      (Returned tt
         (mkWorld e' (cache_file w)
            (EvReportFail collName (data_error d)
             :: EvLogCreate d :: EvAxios POST false :: lg))).

(** Two worlds that differ at most in how the cache file fails to hold
    a cache, and two results that end alike in such worlds. *)
Definition similar (w1 w2 : World) : Prop :=
  env w1 = env w2 /\ log w1 = log w2 /\
  loaded (cache_file w1) = loaded (cache_file w2).

Definition same_outcome (r1 r2 : Result unit) : Prop :=
  match r1, r2 with
  | Returned _ w1, Returned _ w2 => similar w1 w2
  | OutOfFuel w1, OutOfFuel w2 => similar w1 w2
  | Thrown e1 w1, Thrown e2 w2 => e1 = e2 /\ similar w1 w2
  | _, _ => False
  end.

(** The log [lg'] continues the log [lg]. *)
Definition extends (lg lg' : list Event) : Prop := exists evs, lg' = evs ++ lg.

(** The recursive call that stops: with it the body is the method at fuel 1. *)
Definition stop : M unit := fun w => OutOfFuel w.

End Engine.

Arguments World Env : clear implicits.
Arguments mkWorld {Env} env cache_file log.
Arguments env {Env} w.
Arguments cache_file {Env} w.
Arguments log {Env} w.
Arguments Result Env A : clear implicits.
Arguments Returned {Env A} a w.
Arguments Thrown {Env A} e w.
Arguments OutOfFuel {Env A} w.
Arguments M Env A : clear implicits.
Arguments ret {Env A} a w.
Arguments throw {Env A} e w.
Arguments bind {Env A B} m k w.
Arguments try_catch {Env A} m h w.
Arguments final_world {Env A} r.
Arguments emit {Env} e w.
Arguments console_log {Env} e w.
Arguments parse_cache_file {Env} w.
Arguments writeFileSync {Env} disk_write portmanCache w.
Arguments JSON_parse {Env} respData w.
Arguments createCollection {Env} axios_post collection w.
Arguments updateCollection {Env} axios_put collection uuid w.
Arguments findCollectionByName {Env} axios_get collName w.
Arguments syncCollectionToPostman_body {Env} axios_put axios_post axios_get disk_write self this w.
Arguments Resolved collName c lg _ _ : clear implicits.
Arguments Attempt {Env} collName w _.
Arguments similar {Env} w1 w2.
Arguments same_outcome {Env} r1 r2.
Arguments stop {Env} w.
Arguments syncCollectionToPostman {Env} axios_put axios_post axios_get disk_write fuel this w.

Notation "x <-- m ;; k" := (bind m (fun x => k))
  (at level 100, m at next level, right associativity).
Notation "m ;;; k" := (bind m (fun _ => k))
  (at level 100, right associativity).

(** ** Scripted environments

    An environment that answers from four scripts, one per operation; an
    exhausted script rejects the request with a network error, and lets a
    write succeed. *)
Module Scenario.

Definition network_error : JsError := mkJsError "Error: Network Error" None.

Definition not_found : JsError :=
  mkJsError "Error: Request failed with status code 404"
    (Some (mkPayload None (Some "instanceNotFoundError"))).

Definition ok_payload (name uid : string) : option Payload :=
  Some (mkPayload (Some (mkCollectionRef (Some name) (Some uid))) None).

Record Script := mkScript {
  puts : list (Settled (option Payload));
  posts : list (Settled (option Payload));
  gets : list (Settled (option Listing));
  writes : list bool
}.

Definition put (_ : CollectionDefinition) (_ : string) (s : Script)
  : Settled (option Payload) * Script :=
  match puts s with
  | r :: rest => (r, mkScript rest (posts s) (gets s) (writes s))
  | [] => (Rejected network_error, s)
  end.

Definition post (_ : CollectionDefinition) (s : Script)
  : Settled (option Payload) * Script :=
  match posts s with
  | r :: rest => (r, mkScript (puts s) rest (gets s) (writes s))
  | [] => (Rejected network_error, s)
  end.

Definition get (s : Script) : Settled (option Listing) * Script :=
  match gets s with
  | r :: rest => (r, mkScript (puts s) (posts s) rest (writes s))
  | [] => (Rejected network_error, s)
  end.

Definition write (s : Script) : bool * Script :=
  match writes s with
  | b :: rest => (b, mkScript (puts s) (posts s) (gets s) rest)
  | [] => (true, s)
  end.

Definition run (fuel : nat) (this : Portman) (w : World Script) : Result Script unit :=
  syncCollectionToPostman put post get write fuel this w.

Definition billing : CollectionDefinition := mkCollection "Billing API" [].

Definition by_name : Portman := mkPortman (mkOptions true None) billing.

Definition pinned (uid : string) : Portman :=
  mkPortman (mkOptions true (Some uid)) billing.

Definition start (s : Script) (f : FileContent) : World Script := mkWorld s f [].

Definition cached (uid : string) : Cache :=
  {[ "Billing API" := mkEntry (Some "Billing API") (Some uid) ]}.

Definition listing (l : list Summary) : Settled (option Listing) :=
  Fulfilled (Some (mkListing (Some l))).

(** A service on which no update ever succeeds while the listing keeps
    showing the collection: the environment has a single state. *)
Definition stuck_put (_ : CollectionDefinition) (_ : string) (u : unit)
  : Settled (option Payload) * unit := (Rejected not_found, u).
Definition stuck_post (_ : CollectionDefinition) (u : unit)
  : Settled (option Payload) * unit := (Rejected network_error, u).
Definition stuck_get (u : unit) : Settled (option Listing) * unit :=
  (listing [mkSummary (Some "Billing API") (Some "def") 1], u).
Definition stuck_write (u : unit) : bool * unit := (true, u).

Definition run_stuck (fuel : nat) (w : World unit) : Result unit unit :=
  syncCollectionToPostman stuck_put stuck_post stuck_get stuck_write fuel by_name w.

(** The collection is cached as "abc" and the update of "abc" succeeds. *)
Definition warm : World Script :=
  start (mkScript [Fulfilled (ok_payload "Billing API" "abc")] [] [] [])
    (CacheJson (cached "abc")).

(** The cached "abc" is gone from the service; the listing shows the
    collection as "def", whose update succeeds. *)
Definition stale : World Script :=
  start (mkScript [Rejected not_found; Fulfilled (ok_payload "Billing API" "def")]
           [] [listing [mkSummary (Some "billing  api") (Some "def") 5]] [])
    (CacheJson (cached "abc")).

(** The environment of [stale] once the first update was rejected. *)
Definition stale_rejected : Script :=
  mkScript [Fulfilled (ok_payload "Billing API" "def")]
    [] [listing [mkSummary (Some "billing  api") (Some "def") 5]] [].

(** The collection is cached as "abc" and the network is down. *)
Definition offline : World Script :=
  start (mkScript [] [] [] []) (CacheJson (cached "abc")).

(** No cache file and the network is down. *)
Definition fresh_offline : World Script :=
  start (mkScript [] [] [] []) NoFile.

(** No cache file; the listing shows two collections of that name and one
    other; the update of the newer one succeeds. *)
Definition older : Summary := mkSummary (Some "Billing API") (Some "old") 100.
Definition other : Summary := mkSummary (Some "Shipping API") (Some "ship") 300.


(** The cache holds the collection under a key that differs from its name
    in case only. *)
Definition other_key : World Script :=
  start (mkScript [Fulfilled (ok_payload "Billing API" "abc")] []
           [listing [mkSummary (Some "Billing API") (Some "abc") 1]] [])
    (CacheJson {[ "billing api" := mkEntry (Some "billing api") (Some "abc") ]}).

Definition stuck_start : World unit := mkWorld tt (CacheJson (cached "abc")) [].

End Scenario.

(** ** The create branch, as a result

    What the method returns once it has taken the create branch with the
    environment [e1] and the log [lg1] that the identity resolution left:
    the request, the printed response, the write of the cache when the
    request was fulfilled, and the report. *)
Section Branches.

Variable Env : Type.
Variable axios_post : CollectionDefinition -> Env -> Settled (option Payload) * Env.
Variable disk_write : Env -> bool * Env.

Definition created (this : Portman) (w : World Env) (e1 : Env) (lg1 : list Event)
  : Result Env unit :=
  let collName := info_name (portmanCollection this) in
  let c := loaded (cache_file w) in
  match axios_post (portmanCollection this) e1 with
  | (Fulfilled d, e2) =>
      let c' := <[collName := cache_item collName d]> c in
      Returned tt
        (mkWorld (snd (disk_write e2))
           (if fst (disk_write e2) then CacheJson c' else cache_file w)
           (EvReportSuccess (collection_name d) (collection_uid d)
            :: EvWrite c' (fst (disk_write e2))
            :: EvLogCreate d :: EvAxios POST true :: lg1))
  | (Rejected error, e2) =>
      Returned tt
        (mkWorld e2 (cache_file w)
           (EvReportFail collName (data_error (err_response_data error))
            :: EvLogCreate (err_response_data error)
            :: EvAxios POST false :: lg1))
  end.

End Branches.

Arguments created {Env} axios_post disk_write this w e1 lg1.

(** * The other methods of the two classes *)

(** Every character of [s] satisfies [p]. *)
Fixpoint all_chars (p : ascii -> bool) (s : string) : bool :=
  match s with
  | EmptyString => true
  | String c r => p c && all_chars p r
  end.

(** The order [sort by_date_desc] establishes: the later element of the
    list is not newer. *)
Definition not_older (a b : Summary) : Prop :=
  (s_updatedAt b <= s_updatedAt a)%Z.

(** ** PostmanService.isGuid

    The pattern
    [^\{?[0-9a-fA-F]{8}-[0-9a-fA-F]{4}-[0-9a-fA-F]{4}-[0-9a-fA-F]{4}-[0-9a-fA-F]{12}\}?$],
    matched as the regular expression engine does: a greedy optional
    brace is tried first with the brace, then without it. *)

Definition is_hex_digit (c : ascii) : bool :=
  let n := nat_of_ascii c in
  ((48 <=? n)%nat && (n <=? 57)%nat)
  || ((97 <=? n)%nat && (n <=? 102)%nat)
  || ((65 <=? n)%nat && (n <=? 70)%nat).

(** [[0-9a-fA-F]{n}] at the head of [s]: what follows it. *)
Fixpoint hex_digits (n : nat) (s : string) : option string :=
  match n with
  | O => Some s
  | S n' =>
      match s with
      | String c r => if is_hex_digit c then hex_digits n' r else None
      | EmptyString => None
      end
  end.

(** One literal character at the head of [s]: what follows it. *)
Definition literal (c : ascii) (s : string) : option string :=
  match s with
  | String c' r => if Ascii.eqb c' c then Some r else None
  | EmptyString => None
  end.

(** [\}?$]. *)
Definition guid_end (s : string) : bool :=
  match literal "}" s with
  | Some r => String.eqb r ""
  | None => false
  end
  || String.eqb s "".

(** A sequence of groups and literals at the head of [s]: what follows. *)
Inductive Item :=
| Hex (n : nat)
| Lit (c : ascii).

Fixpoint match_items (items : list Item) (s : string) : option string :=
  match items with
  | [] => Some s
  | Hex n :: rest =>
      match hex_digits n s with
      | Some r => match_items rest r
      | None => None
      end
  | Lit c :: rest =>
      match literal c s with
      | Some r => match_items rest r
      | None => None
      end
  end.

(** The number of characters a sequence of items takes. *)
Fixpoint width (items : list Item) : nat :=
  match items with
  | [] => 0
  | Hex n :: rest => n + width rest
  | Lit _ :: rest => 1 + width rest
  end.

Definition guid_groups : list Item :=
  [Hex 8; Lit "-"; Hex 4; Lit "-"; Hex 4; Lit "-"; Hex 4; Lit "-"; Hex 12].

(** The five groups and the end of the pattern. *)
Definition guid_body (s : string) : bool :=
  match match_items guid_groups s with
  | Some r => guid_end r
  | None => false
  end.

(** The pattern tested on a string. *)
Definition guid_test (s : string) : bool :=
  match literal "{" s with
  | Some r => guid_body r
  | None => false
  end
  || guid_body s.

(** [isGuid(value)]: [test] converts [undefined] to the text "undefined". *)
Definition isGuid (value : option string) : bool :=
  guid_test (default "undefined" value).

(** ** Portman.writePortmanCollectionToFile *)

(** [s.includes(search)]. *)
Fixpoint starts_with (search s : string) : bool :=
  match search, s with
  | EmptyString, _ => true
  | String a search', String b s' => Ascii.eqb a b && starts_with search' s'
  | String _ _, EmptyString => false
  end.

Fixpoint includes (search s : string) : bool :=
  starts_with search s
  || match s with
     | EmptyString => false
     | String _ r => includes search r
     end.

(** How the method ends: the file is written and [this.collectionFile]
    set, or the process exits after a line on the error stream. *)
Inductive WriteResult :=
| FileWritten (postmanCollectionFile collectionString : string)
| ProcessExit (code : Z) (message : string).

Section WriteFile.

(** [camelCase] of the package camel-case, [writeRawReplacements] of the
    application module ([None] when it throws), and the disk: whether
    [fs.writeFileSync path text] succeeds. *)
Variable Replacements : Type.
Variable camelCase : string -> string.
Variable writeRawReplacements : string -> Replacements -> option string.
Variable fs_write : string -> string -> bool.

(** What the method reads from [this]. *)
Record WriteInput := mkWriteInput {
  w_output : option string;              (* this.options.output *)
  w_name : option string;                (* this?.portmanCollection?.info?.name *)
  w_replacements : option Replacements;  (* globals?.portmanReplacements *)
  w_json : string                        (* JSON.stringify(this.portmanCollection, null, 2) *)
}.

(** The double quote character, as a string. *)
Definition double_quote : string := String "034" EmptyString.

Definition only_json_message (postmanCollectionFile : string) : string :=
  "Output file error - Only .json filenames are allowed for "
  +:+ double_quote +:+ postmanCollectionFile +:+ double_quote.

Definition no_such_file_message (postmanCollectionFile : string) : string :=
  "Output file error - no such file or directory "
  +:+ double_quote +:+ postmanCollectionFile +:+ double_quote.

Definition writePortmanCollectionToFile (i : WriteInput) : WriteResult :=
  let output := w_output i in
  let fileName :=
    if truthy (w_name i) then default "" (w_name i) else "portman-collection" in
  let postmanCollectionFile := "./tmp/converted/" +:+ camelCase fileName +:+ ".json" in
  let checked : string + WriteResult :=
    if truthy output then
      let postmanCollectionFile := default "" output in
      if negb (includes ".json" postmanCollectionFile) then
        inr (ProcessExit 0 (only_json_message postmanCollectionFile))
      else inl postmanCollectionFile
    else inl postmanCollectionFile in
  match checked with
  | inr exited => exited
  | inl postmanCollectionFile =>
      let collectionString := w_json i in
      (* Replace & clean-up Portman *)
      let replaced :=
        match w_replacements i with
        | Some portmanReplacements =>
            writeRawReplacements collectionString portmanReplacements
        | None => Some collectionString
        end in
      match replaced with
      | Some collectionString =>
          if fs_write postmanCollectionFile collectionString then
            FileWritten postmanCollectionFile collectionString
          else ProcessExit 0 (no_such_file_message postmanCollectionFile)
      | None => ProcessExit 0 (no_such_file_message postmanCollectionFile)
      end
  end.

End WriteFile.

Arguments mkWriteInput {Replacements} w_output w_name w_replacements w_json.
Arguments w_output {Replacements} w.
Arguments w_name {Replacements} w.
Arguments w_replacements {Replacements} w.
Arguments w_json {Replacements} w.
Arguments writePortmanCollectionToFile {Replacements} camelCase writeRawReplacements fs_write i.

(** ** Portman.uploadOnly *)

Section Upload.

Variable Env : Type.

(** [await this.before()]; the instance that
    [new Collection(JSON.parse(fs.readFileSync(path.resolve(localPostman), 'utf8').toString()))]
    builds, of the class [Collection] of the package postman-collection;
    and [await this.syncCollectionToPostman()] once that instance is
    [this.portmanCollection]. The engine above is the method on a
    [CollectionDefinition], whose name it reads at [info.name]; the
    instance is of another class and need not have that field, so the
    method on it is taken as a parameter, given the options and the
    instance. *)
Variable Loaded : Type.
Variable before : M Env unit.
Variable read_collection : string -> Env -> Settled Loaded * Env.
Variable sync_loaded : nat -> PortmanOptions -> Loaded -> M Env unit.

(** [new Error(`Loading ${localPostman} failed.`)]. *)
Definition loading_failed (localPostman : string) : JsError :=
  mkJsError ("Error: Loading " +:+ localPostman +:+ " failed.") None.

Definition load_collection (localPostman : string) : M Env Loaded :=
  fun w =>
    let '(s, e') := read_collection localPostman (env w) in
    let w' := mkWorld e' (cache_file w) (log w) in
    match s with
    | Fulfilled c => Returned c w'
    | Rejected err => Thrown err w'
    end.

(** [output] is [this.options.output]. *)
Definition uploadOnly (fuel : nat) (output : option string) (this : Portman)
  : M Env unit :=
  let localPostman := if truthy output then default "" output else "" in
  if String.eqb localPostman "" then throw (loading_failed localPostman)
  else
    (* this.options.syncPostman = true *)
    let options := mkOptions true (postmanUid (options this)) in
    before ;;;
    try_catch
      (collection <-- load_collection localPostman ;;
       sync_loaded fuel options collection)
      (fun _ => throw (loading_failed localPostman)).

End Upload.

Arguments loading_failed localPostman : simpl never.
Arguments load_collection {Env Loaded} read_collection localPostman w.
Arguments uploadOnly {Env Loaded} before read_collection sync_loaded fuel output this w.

(** ** More scripted cases *)
Module Cases.

Import Scenario.

(** No cache file; the listing shows another collection only; the create
    succeeds and answers the identifier "id1". *)
Definition unlisted : World Script :=
  start (mkScript [] [Fulfilled (ok_payload "Billing API" "id1")] [listing [other]] [])
    NoFile.

Definition unlisted_got : Script :=
  mkScript [] [Fulfilled (ok_payload "Billing API" "id1")] [] [].

Definition spent : Script := mkScript [] [] [] [].

(** The same, but the create answers a body without [collection]. *)
Definition blank_body : option Payload := Some (mkPayload None None).

Definition blank : World Script :=
  start (mkScript [] [Fulfilled blank_body] [listing [other]] []) NoFile.

Definition blank_got : Script := mkScript [] [Fulfilled blank_body] [] [].

(** The cache holds the name without an identifier. *)
Definition nameless_item : Entry := mkEntry (Some "Billing API") None.

Definition no_uid : World Script :=
  start unlisted_got (CacheJson {[ "Billing API" := nameless_item ]}).

(** The cache names "abc", the network is down and the cache file cannot
    be written once. *)
Definition readonly : World Script :=
  start (mkScript [] [] [] [false]) (CacheJson (cached "abc")).

(** The cached "abc" is gone from the service and the listing shows
    another collection only; the network then fails. *)
Definition gone : World Script :=
  start (mkScript [Rejected not_found] [] [listing [other]] [])
    (CacheJson (cached "abc")).

(** The one match of the listing of [stale], and the environments the
    self-heal goes through. *)
Definition relisted : Summary := mkSummary (Some "billing  api") (Some "def") 5.

Definition stale_listed : Script :=
  mkScript [Fulfilled (ok_payload "Billing API" "def")] [] [] [].

(** A well-formed identifier. *)
Definition sample_guid : string := "123e4567-E89B-12d3-a456-426614174000".

(** Inputs of [writePortmanCollectionToFile]: no replacements, a disk
    that accepts every write, [camelCase] left as the identity. *)
Definition plain_input (output : option string) : WriteInput unit :=
  mkWriteInput output (Some "Billing API") None "{}".

Definition write_plain (i : WriteInput unit) : WriteResult :=
  writePortmanCollectionToFile (fun s => s) (fun s _ => Some s) (fun _ _ => true) i.

(** [uploadOnly] with a [before] that does nothing, on a collection file
    that is missing; the loaded instance is kept as the text of its name. *)
Definition quiet_before : M Script unit := ret tt.

Definition missing_file (_ : string) (s : Script) : Settled string * Script :=
  (Rejected ENOENT, s).

Definition sync_named (fuel : nat) (o : PortmanOptions) (name : string)
  : M Script unit :=
  syncCollectionToPostman put post get write fuel (mkPortman o (mkCollection name [])).

Definition upload_only (read : string -> Script -> Settled string * Script)
    (fuel : nat) (output : option string) (this : Portman) (w : World Script)
  : Result Script unit :=
  uploadOnly quiet_before read sync_named fuel output this w.


End Cases.

(** * Properties of the engine *)

Section Properties.

Context {Env : Type}.
Variable axios_put : CollectionDefinition -> string -> Env -> Settled (option Payload) * Env.
Variable axios_post : CollectionDefinition -> Env -> Settled (option Payload) * Env.
Variable axios_get : Env -> Settled (option Listing) * Env.
Variable disk_write : Env -> bool * Env.

Local Abbreviation sync := (syncCollectionToPostman axios_put axios_post axios_get disk_write).
Local Abbreviation sync_body := (syncCollectionToPostman_body axios_put axios_post axios_get disk_write).
Local Abbreviation update := (updateCollection axios_put).
Local Abbreviation create := (createCollection axios_post).
Local Abbreviation find := (findCollectionByName axios_get).

(** *** Printed lines are transparent to the log predicates *)

Lemma skip_console (P : list Event -> Prop) :
  (forall ev lg, is_console ev = true -> (P (ev :: lg) <-> P lg)) ->
  forall evs lg, forallb is_console evs = true -> (P (evs ++ lg) <-> P lg).
Proof.
  intros Hskip evs lg. induction evs as [|ev evs IH]; intros Hall; [reflexivity|].
  simpl in Hall. apply andb_prop in Hall as [Hev Hevs].
  simpl. rewrite (Hskip ev _ Hev). apply IH. exact Hevs.
Qed.

Lemma count_console (p : Event -> bool) (evs lg : list Event) :
  (forall ev, is_console ev = true -> p ev = false) ->
  forallb is_console evs = true ->
  count p (evs ++ lg) = count p lg.
Proof.
  intros Hp. induction evs as [|ev evs IH]; intros Hall; [reflexivity|].
  simpl in Hall. apply andb_prop in Hall as [Hev Hevs].
  simpl. rewrite (Hp ev Hev), (IH Hevs). reflexivity.
Qed.


Lemma last_read_console (evs lg : list Event) :
  forallb is_console evs = true ->
  last_read (evs ++ lg) = last_read lg.
Proof.
  induction evs as [|ev evs IH]; intros Hall; [reflexivity|].
  simpl in Hall. apply andb_prop in Hall as [Hev Hevs].
  destruct ev; try discriminate; simpl; apply IH; exact Hevs.
Qed.


Lemma writes_placed_console (evs lg : list Event) :
  forallb is_console evs = true ->
  writes_placed (evs ++ lg) <-> writes_placed lg.
Proof.
  apply (skip_console writes_placed).
  intros ev lg0 Hev. destruct ev; try discriminate; reflexivity.
Qed.

Lemma listings_follow_miss_console (collName : string) (evs lg : list Event) :
  forallb is_console evs = true ->
  listings_follow_miss collName (evs ++ lg) <-> listings_follow_miss collName lg.
Proof.
  apply (skip_console (listings_follow_miss collName)).
  intros ev lg0 Hev. destruct ev; try discriminate; reflexivity.
Qed.

Lemma writes_keyed_console (collName : string) (evs lg : list Event) :
  forallb is_console evs = true ->
  writes_keyed collName (evs ++ lg) <-> writes_keyed collName lg.
Proof.
  apply (skip_console (writes_keyed collName)).
  intros ev lg0 Hev. destruct ev; try discriminate; reflexivity.
Qed.

(** Unfolds the monad and the primitive operations. *)
Ltac unfold_engine :=
  unfold syncCollectionToPostman_body, updateCollection, createCollection,
    findCollectionByName, axios_PUT, axios_POST, axios_GET, settle,
    writeFileSync, parse_cache_file, JSON_parse, JSON_stringify, console_log,
    emit, try_catch, bind, ret, throw in *.

(** Case analysis on the innermost scrutinee of the goal. *)
Ltac break_match :=
  match goal with
  | |- context [match ?x with _ => _ end] =>
      lazymatch x with
      | context [match _ with _ => _ end] => fail
      | _ => destruct x eqn:?
      end
  end.

Lemma update_returns (collection : CollectionDefinition) (uuid : string) (w : World Env) :
  update collection uuid w =
    let '(s, e') := axios_put collection uuid (env w) in
    Returned
      (json_text (match s with
                  | Fulfilled d => mkResp success d
                  | Rejected error => mkResp fail (err_response_data error)
                  end))
      (mkWorld e' (cache_file w) (EvAxios (PUT uuid) (is_fulfilled s) :: log w)).
Proof.
  unfold_engine. destruct (axios_put collection uuid (env w)) as [[d|error] e']; reflexivity.
Qed.

Lemma create_returns (collection : CollectionDefinition) (w : World Env) :
  create collection w =
    let '(s, e') := axios_post collection (env w) in
    Returned
      (json_text (match s with
                  | Fulfilled d => mkResp success d
                  | Rejected error => mkResp fail (err_response_data error)
                  end))
      (mkWorld e' (cache_file w) (EvAxios POST (is_fulfilled s) :: log w)).
Proof.
  unfold_engine. destruct (axios_post collection (env w)) as [[d|error] e']; reflexivity.
Qed.

Lemma load_returns (w : World Env) :
  try_catch parse_cache_file (fun _ => ret (∅ : Cache)) w
  = Returned (loaded (cache_file w)) w.
Proof. unfold_engine. destruct (cache_file w); reflexivity. Qed.

Lemma write_returns (c : Cache) (w : World Env) :
  try_catch (writeFileSync disk_write c) (fun _ => ret tt) w =
    let '(ok, e') := disk_write (env w) in
    Returned tt
      (mkWorld e' (if ok then CacheJson c else cache_file w) (EvWrite c ok :: log w)).
Proof.
  unfold_engine. destruct (disk_write (env w)) as [[|] e']; reflexivity.
Qed.

(** The lookup by name sends one request, prints at most, and returns. *)
Lemma find_frame (collName : string) (e : Env) :
  exists f evs b e',
    forallb is_console evs = true /\
    forall file lg,
      find collName (mkWorld e file lg)
      = Returned f (mkWorld e' file (evs ++ EvAxios GET b :: lg)).
Proof.
  unfold_engine. simpl.
  destruct (axios_get e) as [[[d|]|err] e'] eqn:Hget.
  - destruct (collections d) as [l|].
    + destruct (1 <? length (List.filter (name_matches collName) l))%nat.
      * eexists _, [EvWarnMultiple collName], true, e'. split; [reflexivity|].
        intros file lg. reflexivity.
      * eexists _, [], true, e'. split; [reflexivity|]. intros; reflexivity.
    + eexists _, [], true, e'. split; [reflexivity|]. intros; reflexivity.
  - eexists _, [EvLogError None], true, e'. split; [reflexivity|]. intros; reflexivity.
  - eexists _, [EvLogError (err_response_data err)], false, e'.
    split; [reflexivity|]. intros; reflexivity.
Qed.

Lemma sync_1 (this : Portman) (w : World Env) :
  sync 1 this w = sync_body stop this w.
Proof. reflexivity. Qed.

(** Runs the body on an explicit world, one operation at a time. *)
Ltac exec :=
  repeat first
    [ rewrite update_returns
    | rewrite create_returns
    | rewrite load_returns
    | rewrite write_returns
    | progress (cbv beta iota delta [bind ret throw emit console_log JSON_parse
                                     JSON_stringify stop];
                cbn [env cache_file log status data Status_eqb negb fst snd]) ].

(** Case analysis on the outcome of the next remote or disk operation. *)
Ltac oracle :=
  match goal with
  | |- context [axios_put ?c ?u ?x] =>
      destruct (axios_put c u x) as [[?d|?err] ?e] eqn:?Hput
  | |- context [axios_post ?c ?x] =>
      destruct (axios_post c x) as [[?d|?err] ?e] eqn:?Hpost
  | |- context [disk_write ?x] =>
      destruct (disk_write x) as [?ok ?e] eqn:?Hdisk
  end; exec.

Lemma attempt_cases (this : Portman) (w : World Env) :
  syncPostman (options this) = true ->
  truthy (postmanUid (options this)) = false ->
  Attempt (info_name (portmanCollection this)) w (sync 1 this w).
Proof.
  intros Hsync Hfixed. rewrite sync_1. unfold syncCollectionToPostman_body.
  rewrite Hsync, Hfixed. destruct w as [e file lg]. exec.
  destruct (loaded file !! info_name (portmanCollection this)) as [ent|] eqn:Hl.
  - exec. cbn [remote_uid].
    destruct (truthy (e_uid ent)) eqn:Hu; exec; repeat oracle.
    + eapply attempt_updated; [apply resolved_hit; exact Hl | exact Hu].
    + eapply attempt_update_failed; [apply resolved_hit; exact Hl | exact Hu].
    + eapply attempt_created; [apply resolved_hit; exact Hl | exact Hu].
    + eapply attempt_create_failed; [apply resolved_hit; exact Hl | exact Hu].
  - destruct (find_frame (info_name (portmanCollection this)) e)
      as (f & evs & b & e1 & Hevs & Hfind).
    rewrite Hfind. exec.
    destruct (truthy (remote_uid (FromListing f))) eqn:Hu; exec; repeat oracle.
    + eapply attempt_updated; [apply resolved_miss; assumption | exact Hu].
    + eapply attempt_update_failed; [apply resolved_miss; assumption | exact Hu].
    + eapply attempt_created; [apply resolved_miss; assumption | exact Hu].
    + eapply attempt_create_failed; [apply resolved_miss; assumption | exact Hu].
Qed.

(** The method at fuel 1 never throws, and the whole method is the
    attempt followed, when the attempt stopped at the recursive call, by
    that call and the report of the failed update. *)
Lemma body_factor (self : M Env unit) (this : Portman) (w : World Env) :
  match sync 1 this w with
  | Returned _ w' => sync_body self this w = Returned tt w'
  | OutOfFuel w1 =>
      syncPostman (options this) = true /\
      truthy (postmanUid (options this)) = false /\
      exists error,
        sync_body self this w
        = (self ;;; console_log (EvReportFail (info_name (portmanCollection this)) error)) w1
  | Thrown _ _ => False
  end.
Proof.
  rewrite sync_1. unfold syncCollectionToPostman_body.
  destruct (syncPostman (options this)); [|reflexivity].
  destruct (truthy (postmanUid (options this))) eqn:Hfixed.
  - exec. oracle; reflexivity.
  - destruct w as [e file lg]. exec.
    destruct (loaded file !! info_name (portmanCollection this)) as [ent|].
    + exec. destruct (truthy (remote_uid (FromCache ent))); exec; repeat oracle;
        try reflexivity.
      split; [reflexivity|]. split; [reflexivity|]. eexists.
      match goal with |- context [self ?x] => destruct (self x) as [[] ?|?|?] end;
        reflexivity.
    + destruct (find_frame (info_name (portmanCollection this)) e)
        as (f & evs & b & e1 & _ & Hfind).
      rewrite Hfind. exec.
      destruct (truthy (remote_uid (FromListing f))); exec; repeat oracle;
        try reflexivity.
      split; [reflexivity|]. split; [reflexivity|]. eexists.
      match goal with |- context [self ?x] => destruct (self x) as [[] ?|?|?] end;
        reflexivity.
Qed.

Lemma sync_never_throws (fuel : nat) (this : Portman) (w : World Env) :
  match sync fuel this w with
  | Thrown _ _ => False
  | _ => True
  end.
Proof.
  revert w. induction fuel as [|fuel IH]; intros w; [exact I|].
  change (sync (S fuel) this w) with (sync_body (sync fuel this) this w).
  pose proof (body_factor (sync fuel this) this w) as Hf.
  destruct (sync 1 this w) as [[] w'|?|w1]; [rewrite Hf; exact I|contradiction|].
  destruct Hf as (_ & _ & error & ->). unfold bind.
  specialize (IH w1). destruct (sync fuel this w1); [exact I|exact IH|exact I].
Qed.

(** Any property of worlds that every attempt and every printed line keep
    holds at the end of the method, however deep the recursion went. *)
Lemma sync_preserves (P : World Env -> Prop) (this : Portman) :
  syncPostman (options this) = true ->
  truthy (postmanUid (options this)) = false ->
  (forall w r, P w -> Attempt (info_name (portmanCollection this)) w r ->
               P (final_world r)) ->
  (forall w ev, is_console ev = true -> P w ->
                P (mkWorld (env w) (cache_file w) (ev :: log w))) ->
  forall fuel w, P w -> P (final_world (sync fuel this w)).
Proof.
  intros Hsync Hfixed Hstep Hprint.
  induction fuel as [|fuel IH]; intros w HP; [exact HP|].
  change (sync (S fuel) this w) with (sync_body (sync fuel this) this w).
  pose proof (body_factor (sync fuel this) this w) as Hf.
  pose proof (Hstep w _ HP (attempt_cases this w Hsync Hfixed)) as H1.
  destruct (sync 1 this w) as [[] w'|?|w1]; [rewrite Hf; exact H1|contradiction|].
  destruct Hf as (_ & _ & error & ->). unfold bind.
  specialize (IH w1 H1). pose proof (sync_never_throws fuel this w1) as Hn.
  destruct (sync fuel this w1) as [[] w2|?|w2]; [|contradiction|exact IH].
  apply Hprint; [reflexivity|exact IH].
Qed.

(** ** Remote failures become structured responses *)

(** C9. A failure of the remote call in [createCollection] or
    [updateCollection] never escapes: both methods return, for every
    environment, a response text whose status is 'success' with the
    response body when the request is fulfilled, and 'fail' with
    [error.response.data] when it is rejected; and the sync method itself
    never throws. *)
Theorem remote_failure_is_structured :
  (forall collection uuid (w : World Env),
      exists r w',
        update collection uuid w = Returned (json_text r) w' /\
        match fst (axios_put collection uuid (env w)) with
        | Fulfilled d => status r = success /\ data r = d
        | Rejected error => status r = fail /\ data r = err_response_data error
        end) /\
  (forall collection (w : World Env),
      exists r w',
        create collection w = Returned (json_text r) w' /\
        match fst (axios_post collection (env w)) with
        | Fulfilled d => status r = success /\ data r = d
        | Rejected error => status r = fail /\ data r = err_response_data error
        end) /\
  (forall fuel this (w : World Env) error w',
      sync fuel this w <> Thrown error w').
Proof.
  split; [|split].
  - intros collection uuid w. rewrite update_returns.
    destruct (axios_put collection uuid (env w)) as [[d|error] e'];
      eexists _, _; (split; [reflexivity|]); split; reflexivity.
  - intros collection w. rewrite create_returns.
    destruct (axios_post collection (env w)) as [[d|error] e'];
      eexists _, _; (split; [reflexivity|]); split; reflexivity.
  - intros fuel this w error w' H.
    pose proof (sync_never_throws fuel this w) as Hn. rewrite H in Hn. exact Hn.
Qed.

(** ** The operator override *)

(** C4. With a [postmanUid] option the method sends exactly one update,
    to that identifier, whatever the cache file holds; it prints the
    success or failure report and returns; the cache file is neither read
    nor written and is left as it was. *)
Theorem override_updates_once (fuel : nat) (this : Portman) (w : World Env)
    (uid : string) :
  syncPostman (options this) = true ->
  postmanUid (options this) = Some uid ->
  uid <> "" ->
  exists s e' report,
    axios_put (portmanCollection this) uid (env w) = (s, e') /\
    sync (S fuel) this w
    = Returned tt
        (mkWorld e' (cache_file w)
           (report :: EvAxios (PUT uid) (is_fulfilled s) :: log w)) /\
    report = match s with
             | Fulfilled d =>
                 EvReportSuccess (collection_name d) (collection_uid d)
             | Rejected error =>
                 EvReportFail uid (data_error (err_response_data error))
             end.
Proof.
  intros Hsync Huid Hne.
  assert (Hfixed : truthy (postmanUid (options this)) = true).
  { rewrite Huid. simpl. destruct (String.eqb_spec uid ""); [contradiction|reflexivity]. }
  simpl. unfold syncCollectionToPostman_body.
  rewrite Hsync, Hfixed, Huid. exec. simpl default.
  destruct (axios_put (portmanCollection this) uid (env w)) as [[d|error] e'];
    eexists _, _, _; (split; [reflexivity|]); exec; split; reflexivity.
Qed.

(** ** A failed listing *)

Lemma find_rejected (collName : string) (w : World Env) (error : JsError) (e1 : Env) :
  axios_get (env w) = (Rejected error, e1) ->
  find collName w
  = Returned (FoundError (err_toString error))
      (mkWorld e1 (cache_file w)
         (EvLogError (err_response_data error) :: EvAxios GET false :: log w)).
Proof. intros Hget. unfold_engine. rewrite Hget. reflexivity. Qed.

(** C10. When the listing request is rejected, [findCollectionByName]
    does not throw and reports no failure: it prints the error body and
    returns the error text, a value without [uid]. On a cache miss the
    method then takes the create branch: its next request is the POST of a
    new collection, and it returns. *)
Theorem listing_failure_creates (fuel : nat) (this : Portman) (w : World Env)
    (error : JsError) (e1 : Env) :
  let collName := info_name (portmanCollection this) in
  let c := loaded (cache_file w) in
  syncPostman (options this) = true ->
  truthy (postmanUid (options this)) = false ->
  c !! collName = None ->
  axios_get (env w) = (Rejected error, e1) ->
  find collName w
  = Returned (FoundError (err_toString error))
      (mkWorld e1 (cache_file w)
         (EvLogError (err_response_data error) :: EvAxios GET false :: log w)) /\
  remote_uid (FromListing (FoundError (err_toString error))) = None /\
  let lg := EvLogError (err_response_data error) :: EvAxios GET false
            :: EvRead c :: log w in
  match axios_post (portmanCollection this) e1 with
  | (Fulfilled d, e2) =>
      let c' := <[collName := cache_item collName d]> c in
      sync (S fuel) this w
      = Returned tt
          (mkWorld (snd (disk_write e2))
             (if fst (disk_write e2) then CacheJson c' else cache_file w)
             (EvReportSuccess (collection_name d) (collection_uid d)
              :: EvWrite c' (fst (disk_write e2))
              :: EvLogCreate d :: EvAxios POST true :: lg))
  | (Rejected error2, e2) =>
      sync (S fuel) this w
      = Returned tt
          (mkWorld e2 (cache_file w)
             (EvReportFail collName (data_error (err_response_data error2))
              :: EvLogCreate (err_response_data error2)
              :: EvAxios POST false :: lg))
  end.
Proof.
  intros collName c Hsync Hfixed Hmiss Hget.
  split; [apply find_rejected; exact Hget|]. split; [reflexivity|].
  subst c collName. destruct w as [e file lg0].
  cbn [env cache_file log] in *.
  cbn [syncCollectionToPostman]. unfold syncCollectionToPostman_body.
  rewrite Hsync, Hfixed. exec. rewrite Hmiss.
  rewrite find_rejected with (error := error) (e1 := e1) by exact Hget.
  exec. cbn [remote_uid truthy]. exec.
  destruct (axios_post (portmanCollection this) e1) as [[d|error2] e2]; exec.
  - destruct (disk_write e2) as [ok e3]; exec; reflexivity.
  - reflexivity.
Qed.

(** ** The restart after a failed update *)

Lemma truthy_Some (uid : string) : uid <> "" -> truthy (Some uid) = true.
Proof.
  intros Hne. simpl. destruct (String.eqb_spec uid ""); [contradiction|reflexivity].
Qed.

(** A failed update of the identifier found in the cache. *)
Lemma cached_update_failed (fuel : nat) (this : Portman) (w : World Env)
    (ent : Entry) (uid : string) (error : JsError) (e1 : Env) :
  let collName := info_name (portmanCollection this) in
  let c := loaded (cache_file w) in
  syncPostman (options this) = true ->
  truthy (postmanUid (options this)) = false ->
  c !! collName = Some ent ->
  e_uid ent = Some uid ->
  uid <> "" ->
  axios_put (portmanCollection this) uid (env w) = (Rejected error, e1) ->
  sync (S fuel) this w
  = (sync fuel this ;;;
     console_log (EvReportFail collName (data_error (err_response_data error))))
      (mkWorld (snd (disk_write e1))
         (if fst (disk_write e1) then CacheJson (delete collName c) else cache_file w)
         (EvWrite (delete collName c) (fst (disk_write e1))
          :: EvAxios (PUT uid) false :: EvRead c :: log w)).
Proof.
  intros collName c Hsync Hfixed Hhit Huid Hne Hput.
  subst c collName. destruct w as [e file lg]. cbn [env cache_file log] in *.
  cbn [syncCollectionToPostman]. unfold syncCollectionToPostman_body.
  rewrite Hsync, Hfixed. exec. rewrite Hhit. exec.
  cbn [remote_uid]. rewrite Huid, (truthy_Some uid Hne).
  change (default "" (Some uid)) with uid. exec.
  rewrite Hput. exec. destruct (disk_write e1) as [ok e2]. exec.
  destruct (sync fuel this _) as [[] ?|?|?]; reflexivity.
Qed.

(** A failed update of the identifier found in the listing. *)
Lemma listed_update_failed (fuel : nat) (this : Portman) (w : World Env)
    (f : Found) (lg1 : list Event) (uid : string) (error : JsError) (e1 e2 : Env) :
  let collName := info_name (portmanCollection this) in
  let c := loaded (cache_file w) in
  syncPostman (options this) = true ->
  truthy (postmanUid (options this)) = false ->
  c !! collName = None ->
  find collName (mkWorld (env w) (cache_file w) (EvRead c :: log w))
  = Returned f (mkWorld e1 (cache_file w) lg1) ->
  remote_uid (FromListing f) = Some uid ->
  uid <> "" ->
  axios_put (portmanCollection this) uid e1 = (Rejected error, e2) ->
  sync (S fuel) this w
  = (sync fuel this ;;;
     console_log (EvReportFail collName (data_error (err_response_data error))))
      (mkWorld (snd (disk_write e2))
         (if fst (disk_write e2) then CacheJson (delete collName c) else cache_file w)
         (EvWrite (delete collName c) (fst (disk_write e2))
          :: EvAxios (PUT uid) false :: lg1)).
Proof.
  intros collName c Hsync Hfixed Hmiss Hfind Huid Hne Hput.
  subst c collName. destruct w as [e file lg]. cbn [env cache_file log] in *.
  cbn [syncCollectionToPostman]. unfold syncCollectionToPostman_body.
  rewrite Hsync, Hfixed. exec. rewrite Hmiss, Hfind. exec.
  rewrite Huid, (truthy_Some uid Hne).
  change (default "" (Some uid)) with uid. exec.
  rewrite Hput. exec. destruct (disk_write e2) as [ok e3]. exec.
  destruct (sync fuel this _) as [[] ?|?|?]; reflexivity.
Qed.

(** C1, as the code has it. When the update of a cached identifier fails,
    the method deletes the name from the cache it holds, writes the cache
    file, and calls itself on the world so obtained; the nested call
    loads the cache file and resolves the identity anew, and the failure
    is reported when it returns. The same happens when the identifier
    came from the listing: every failed update on this path restarts the
    method, without a counter or a bound. *)
Theorem failed_update_restarts (fuel : nat) (this : Portman) (w : World Env)
    (uid : string) (error : JsError) :
  let collName := info_name (portmanCollection this) in
  let c := loaded (cache_file w) in
  let restart e lg :=
    (sync fuel this ;;;
     console_log (EvReportFail collName (data_error (err_response_data error))))
      (mkWorld (snd (disk_write e))
         (if fst (disk_write e) then CacheJson (delete collName c) else cache_file w)
         (EvWrite (delete collName c) (fst (disk_write e))
          :: EvAxios (PUT uid) false :: lg)) in
  syncPostman (options this) = true ->
  truthy (postmanUid (options this)) = false ->
  uid <> "" ->
  (forall ent e1,
      c !! collName = Some ent ->
      e_uid ent = Some uid ->
      axios_put (portmanCollection this) uid (env w) = (Rejected error, e1) ->
      sync (S fuel) this w = restart e1 (EvRead c :: log w)) /\
  (forall f lg1 e1 e2,
      c !! collName = None ->
      find collName (mkWorld (env w) (cache_file w) (EvRead c :: log w))
      = Returned f (mkWorld e1 (cache_file w) lg1) ->
      remote_uid (FromListing f) = Some uid ->
      axios_put (portmanCollection this) uid e1 = (Rejected error, e2) ->
      sync (S fuel) this w = restart e2 lg1).
Proof.
  intros collName c restart Hsync Hfixed Hne. split.
  - intros ent e1 Hhit Huid Hput.
    exact (cached_update_failed fuel this w ent uid error e1 Hsync Hfixed Hhit Huid Hne Hput).
  - intros f lg1 e1 e2 Hmiss Hfind Huid Hput.
    exact (listed_update_failed fuel this w f lg1 uid error e1 e2
             Hsync Hfixed Hmiss Hfind Huid Hne Hput).
Qed.

(** ** Writes of the cache file *)

(** Inverts an attempt and its identity resolution. *)
Ltac attempt_inv H :=
  inversion H; subst; clear H;
  match goal with
  | Hr : Resolved _ _ _ _ _ |- _ => inversion Hr; subst; clear Hr
  end;
  repeat match goal with x := _ : gmap string Entry |- _ => subst x end;
  cbn [final_world log env cache_file].

(** C3, as the code has it. Over a whole call, nested calls included, the
    cache file is written once for each update sent on the path that
    resolves the identity (whether the update succeeded or not) and once
    for each fulfilled create, each time right after that response and
    before any restart; a failed create writes nothing, and the override
    path writes nothing. A write that fails is caught: the call never
    throws, and the failed write leaves the file as it was. *)
Theorem writes_per_update_or_create :
  (forall fuel this (w : World Env),
      let w' := final_world (sync fuel this w) in
      if truthy (postmanUid (options this)) then
        count is_write (log w') = count is_write (log w)
      else
        count is_write (log w') + (count is_put (log w) + count is_post_ok (log w))
        = count is_write (log w) + (count is_put (log w') + count is_post_ok (log w'))) /\
  (forall fuel this e file,
      writes_placed (log (final_world (sync fuel this (mkWorld e file []))))) /\
  (forall c (w : World Env),
      exists w',
        try_catch (writeFileSync disk_write c) (fun _ => ret tt) w = Returned tt w' /\
        cache_file w' = (if fst (disk_write (env w)) then CacheJson c else cache_file w)) /\
  (forall fuel this (w : World Env) error w',
      sync fuel this w <> Thrown error w').
Proof.
  split; [|split; [|split]].
  - intros fuel this w.
    destruct (syncPostman (options this)) eqn:Hsync.
    + destruct (truthy (postmanUid (options this))) eqn:Hfixed.
      * destruct fuel as [|fuel]; [reflexivity|].
        cbn [syncCollectionToPostman]. unfold syncCollectionToPostman_body.
        rewrite Hsync, Hfixed. exec. oracle; reflexivity.
      * apply (sync_preserves
                 (fun w' => count is_write (log w')
                            + (count is_put (log w) + count is_post_ok (log w))
                            = count is_write (log w)
                              + (count is_put (log w') + count is_post_ok (log w')))
                 this Hsync Hfixed); [| |reflexivity].
        -- intros w1 r HP Hatt.
           attempt_inv Hatt; cbn [count is_write is_put is_post_ok];
             rewrite ?(count_console is_write), ?(count_console is_put),
               ?(count_console is_post_ok) by (assumption || (intros []; easy));
             cbn [count is_write is_put is_post_ok]; lia.
        -- intros w1 ev Hev HP. cbn [log].
           destruct ev; try discriminate; cbn [count is_write is_put is_post_ok]; lia.
    + destruct fuel as [|fuel].
      * destruct (truthy (postmanUid (options this))); reflexivity.
      * cbn [syncCollectionToPostman]. unfold syncCollectionToPostman_body.
        rewrite Hsync. cbn [ret final_world].
        destruct (truthy (postmanUid (options this))); reflexivity.
  - intros fuel this e file.
    destruct (syncPostman (options this)) eqn:Hsync.
    + destruct (truthy (postmanUid (options this))) eqn:Hfixed.
      * destruct fuel as [|fuel]; [exact I|].
        cbn [syncCollectionToPostman]. unfold syncCollectionToPostman_body.
        rewrite Hsync, Hfixed. exec. oracle; exact I.
      * apply (sync_preserves (fun w' => writes_placed (log w'))
                 this Hsync Hfixed); [| |exact I].
        -- intros w1 r HP Hatt.
           attempt_inv Hatt; cbn [writes_placed];
             rewrite ?writes_placed_console by assumption;
             cbn [writes_placed]; repeat split; exact HP.
        -- intros w1 ev Hev HP. cbn [log].
           destruct ev; try discriminate; exact HP.
    + destruct fuel as [|fuel]; [exact I|].
      cbn [syncCollectionToPostman]. unfold syncCollectionToPostman_body.
      rewrite Hsync. exact I.
  - intros c w. rewrite write_returns.
    destruct (disk_write (env w)) as [ok e']. eexists. split; reflexivity.
  - intros fuel this w error w' H.
    pose proof (sync_never_throws fuel this w) as Hn. rewrite H in Hn. exact Hn.
Qed.

(** ** Which failures clear the cache entry *)


(** ** The listing: matching names and choosing among matches *)

Lemma insert_sorted_In {A} (cmp : A -> A -> Z) (x y : A) (l : list A) :
  In y (insert_sorted cmp x l) <-> y = x \/ In y l.
Proof.
  induction l as [|z l IH]; simpl.
  - intuition.
  - destruct (cmp x z <=? 0)%Z; simpl; [intuition|]. rewrite IH. intuition.
Qed.

Lemma sort_In {A} (cmp : A -> A -> Z) (y : A) (l : list A) :
  In y (sort cmp l) <-> In y l.
Proof.
  induction l as [|x l IH]; simpl; [reflexivity|].
  rewrite insert_sorted_In, IH. intuition.
Qed.


Lemma find_listed (collName : string) (w : World Env) (l : list Summary) (e1 : Env) :
  axios_get (env w) = (Fulfilled (Some (mkListing (Some l))), e1) ->
  let matches := List.filter (name_matches collName) l in
  find collName w
  = if (1 <? length matches)%nat then
      Returned (first_of (sort by_date_desc matches))
        (mkWorld e1 (cache_file w)
           (EvWarnMultiple collName :: EvAxios GET true :: log w))
    else
      Returned (if (length matches =? 1)%nat then first_of matches else FoundNone)
        (mkWorld e1 (cache_file w) (EvAxios GET true :: log w)).
Proof.
  intros Hget matches. unfold_engine. rewrite Hget. cbn [collections is_fulfilled].
  fold matches. destruct (1 <? length matches)%nat; reflexivity.
Qed.

(** An update that succeeds ends the method. *)
Lemma cached_update_ok (fuel : nat) (this : Portman) (w : World Env)
    (ent : Entry) (uid : string) (d : option Payload) (e1 : Env) :
  let collName := info_name (portmanCollection this) in
  let c := loaded (cache_file w) in
  let c' := <[collName := cache_item collName d]> c in
  syncPostman (options this) = true ->
  truthy (postmanUid (options this)) = false ->
  c !! collName = Some ent ->
  e_uid ent = Some uid ->
  uid <> "" ->
  axios_put (portmanCollection this) uid (env w) = (Fulfilled d, e1) ->
  sync (S fuel) this w
  = Returned tt
      (mkWorld (snd (disk_write e1))
         (if fst (disk_write e1) then CacheJson c' else cache_file w)
         (EvReportSuccess (collection_name d) (collection_uid d)
          :: EvWrite c' (fst (disk_write e1))
          :: EvAxios (PUT uid) true :: EvRead c :: log w)).
Proof.
  intros collName c c' Hsync Hfixed Hhit Huid Hne Hput.
  subst c' c collName. destruct w as [e file lg]. cbn [env cache_file log] in *.
  cbn [syncCollectionToPostman]. unfold syncCollectionToPostman_body.
  rewrite Hsync, Hfixed. exec. rewrite Hhit. exec.
  cbn [remote_uid]. rewrite Huid, (truthy_Some uid Hne).
  change (default "" (Some uid)) with uid. exec.
  rewrite Hput. exec. destruct (disk_write e1) as [ok e2]. exec. reflexivity.
Qed.

Lemma listed_update_ok (fuel : nat) (this : Portman) (w : World Env)
    (f : Found) (lg1 : list Event) (uid : string) (d : option Payload) (e1 e2 : Env) :
  let collName := info_name (portmanCollection this) in
  let c := loaded (cache_file w) in
  let c' := <[collName := cache_item collName d]> c in
  syncPostman (options this) = true ->
  truthy (postmanUid (options this)) = false ->
  c !! collName = None ->
  find collName (mkWorld (env w) (cache_file w) (EvRead c :: log w))
  = Returned f (mkWorld e1 (cache_file w) lg1) ->
  remote_uid (FromListing f) = Some uid ->
  uid <> "" ->
  axios_put (portmanCollection this) uid e1 = (Fulfilled d, e2) ->
  sync (S fuel) this w
  = Returned tt
      (mkWorld (snd (disk_write e2))
         (if fst (disk_write e2) then CacheJson c' else cache_file w)
         (EvReportSuccess (collection_name d) (collection_uid d)
          :: EvWrite c' (fst (disk_write e2))
          :: EvAxios (PUT uid) true :: lg1)).
Proof.
  intros collName c c' Hsync Hfixed Hmiss Hfind Huid Hne Hput.
  subst c' c collName. destruct w as [e file lg]. cbn [env cache_file log] in *.
  cbn [syncCollectionToPostman]. unfold syncCollectionToPostman_body.
  rewrite Hsync, Hfixed. exec. rewrite Hmiss, Hfind. exec.
  rewrite Huid, (truthy_Some uid Hne).
  change (default "" (Some uid)) with uid. exec.
  rewrite Hput. exec. destruct (disk_write e2) as [ok e3]. exec. reflexivity.
Qed.

(** The log only grows. *)
Lemma extends_refl (lg : list Event) : extends lg lg.
Proof. exists []. reflexivity. Qed.

Lemma extends_cons (ev : Event) (lg lg' : list Event) :
  extends lg lg' -> extends lg (ev :: lg').
Proof. intros [evs ->]. exists (ev :: evs). reflexivity. Qed.

Lemma extends_app (pre lg lg' : list Event) :
  extends lg lg' -> extends lg (pre ++ lg').
Proof. intros [evs ->]. exists (pre ++ evs). apply app_assoc. Qed.

Lemma sync_extends (fuel : nat) (this : Portman) (w : World Env) :
  syncPostman (options this) = true ->
  truthy (postmanUid (options this)) = false ->
  extends (log w) (log (final_world (sync fuel this w))).
Proof.
  intros Hsync Hfixed.
  apply (sync_preserves (fun w' => extends (log w) (log w')) this Hsync Hfixed).
  - intros w1 r HP Hatt.
    attempt_inv Hatt;
      repeat first [exact HP | apply extends_cons | apply extends_app].
  - intros w1 ev _ HP. apply extends_cons. exact HP.
  - apply extends_refl.
Qed.

(** After a restart the log still extends the log at the restart. *)
Lemma restart_extends (fuel : nat) (this : Portman) (w1 : World Env) (ev : Event) :
  syncPostman (options this) = true ->
  truthy (postmanUid (options this)) = false ->
  extends (log w1) (log (final_world ((sync fuel this ;;; console_log ev) w1))).
Proof.
  intros Hsync Hfixed. pose proof (sync_extends fuel this w1 Hsync Hfixed) as H.
  unfold bind. destruct (sync fuel this w1) as [[] w2|? w2|w2]; cbn [final_world] in *;
    try exact H.
  apply extends_cons. exact H.
Qed.


(** ** The cache hit *)

(** C7, as the code has it. When the loaded cache holds an item for the
    name with an identifier, the method uses that identifier: its first
    request is the update, sent right after the load, with no listing
    before it; when that update succeeds it is the only request of the
    call. Over a whole call a listing is requested only right after a
    load that found no item for the name, as the nested call finds after
    a failed update has removed the item. *)
Theorem cache_hit_skips_listing (fuel : nat) (this : Portman) (w : World Env)
    (ent : Entry) (uid : string) :
  let collName := info_name (portmanCollection this) in
  let c := loaded (cache_file w) in
  syncPostman (options this) = true ->
  truthy (postmanUid (options this)) = false ->
  c !! collName = Some ent ->
  e_uid ent = Some uid ->
  uid <> "" ->
  (exists evs b,
      log (final_world (sync (S fuel) this w))
      = evs ++ EvAxios (PUT uid) b :: EvRead c :: log w) /\
  (forall d e1,
      axios_put (portmanCollection this) uid (env w) = (Fulfilled d, e1) ->
      exists w',
        sync (S fuel) this w = Returned tt w' /\
        List.filter is_request (log w')
        = EvAxios (PUT uid) true :: List.filter is_request (log w)) /\
  (listings_follow_miss collName (log w) ->
   listings_follow_miss collName (log (final_world (sync (S fuel) this w)))).
Proof.
  intros collName c Hsync Hfixed Hhit Huid Hne. split; [|split].
  - subst c collName.
    destruct (axios_put (portmanCollection this) uid (env w)) as [[d|error] e1] eqn:Hput.
    + rewrite (cached_update_ok fuel this w ent uid d e1
                 Hsync Hfixed Hhit Huid Hne Hput).
      cbn [final_world log]. eexists [_; _], true. reflexivity.
    + rewrite (cached_update_failed fuel this w ent uid error e1
                 Hsync Hfixed Hhit Huid Hne Hput).
      match goal with
      | |- context [(sync fuel this ;;; console_log ?ev) ?w1] =>
          destruct (restart_extends fuel this w1 ev Hsync Hfixed) as [evs Hevs]
      end.
      rewrite Hevs. cbn [log]. eexists (evs ++ [_]), false.
      rewrite <- app_assoc. reflexivity.
  - intros d e1 Hput. eexists. split.
    + exact (cached_update_ok fuel this w ent uid d e1
               Hsync Hfixed Hhit Huid Hne Hput).
    + reflexivity.
  - apply (sync_preserves (fun w' => listings_follow_miss collName (log w'))
             this Hsync Hfixed).
    + intros w1 r HP Hatt. fold collName in Hatt.
      attempt_inv Hatt; cbn [listings_follow_miss];
        rewrite ?listings_follow_miss_console by assumption;
        cbn [listings_follow_miss]; repeat split; assumption.
    + intros w1 ev Hev HP. cbn [log].
      destruct ev; try discriminate; exact HP.
Qed.

(** ** Name comparison and cache keys *)

Lemma name_matches_spec (collName : string) (o : Summary) :
  name_matches collName o = true <->
  exists n, s_name o = Some n /\ n <> "" /\ normalize n = normalize collName.
Proof.
  unfold name_matches. destruct (s_name o) as [n|]; simpl.
  - destruct (String.eqb_spec n "") as [->|Hne]; simpl.
    + split; [discriminate|]. intros (n & Hn & Hne & _). injection Hn as <-.
      contradiction.
    + rewrite String.eqb_eq. split.
      * intros Heq. exists n. auto.
      * intros (n' & Hn & _ & Heq). injection Hn as <-. exact Heq.
  - split; [discriminate|]. intros (n & Hn & _). discriminate.
Qed.

Lemma attempt_lists_on_miss (collName : string) (w : World Env)
    (r : Result Env unit) :
  Attempt collName w r ->
  loaded (cache_file w) !! collName = None ->
  exists evs b,
    log (final_world r)
    = evs ++ EvAxios GET b :: EvRead (loaded (cache_file w)) :: log w.
Proof.
  intros Hatt Hmiss. attempt_inv Hatt; try congruence.
  - eexists (_ :: _ :: _ :: _), _. reflexivity.
  - eexists (_ :: _ :: _), _. reflexivity.
  - eexists (_ :: _ :: _ :: _ :: _), _. reflexivity.
  - eexists (_ :: _ :: _ :: _), _. reflexivity.
Qed.

(** C8, as the code has it. The lookup by name requests the whole listing
    once and filters it locally: a listed summary matches if and only if
    it has a non-empty name whose normal form (lower case, whitespace
    removed) equals the normal form of the collection's name; what the
    lookup returns is one of the matches, or the empty object when there
    is none. The cache is keyed by the name as given: a load without an
    item under exactly that key leads to the listing, and every write
    differs from the cache last loaded at that key only. *)
Theorem names_normalized_keys_exact (fuel : nat) (this : Portman) (w : World Env) :
  let collName := info_name (portmanCollection this) in
  let c := loaded (cache_file w) in
  syncPostman (options this) = true ->
  truthy (postmanUid (options this)) = false ->
  (forall name o,
      name_matches name o = true <->
      exists n, s_name o = Some n /\ n <> "" /\ normalize n = normalize name) /\
  (forall l e1,
      axios_get (env w) = (Fulfilled (Some (mkListing (Some l))), e1) ->
      exists f evs,
        find collName w
        = Returned f (mkWorld e1 (cache_file w) (evs ++ EvAxios GET true :: log w)) /\
        forallb is_console evs = true /\
        match f with
        | FoundMatch m => In m (List.filter (name_matches collName) l)
        | FoundNone => List.filter (name_matches collName) l = []
        | FoundError _ => False
        end) /\
  (c !! collName = None ->
   exists evs b,
     log (final_world (sync (S fuel) this w))
     = evs ++ EvAxios GET b :: EvRead c :: log w) /\
  (writes_keyed collName (log w) ->
   writes_keyed collName (log (final_world (sync fuel this w)))).
Proof.
  intros collName c Hsync Hfixed. split; [|split; [|split]].
  - apply name_matches_spec.
  - intros l e1 Hget. rewrite (find_listed collName w l e1 Hget).
    set (matches := List.filter (name_matches collName) l).
    destruct (1 <? length matches)%nat eqn:Hmany.
    + eexists _, [_]. split; [reflexivity|]. split; [reflexivity|].
      destruct (sort by_date_desc matches) as [|m rest] eqn:Hsort; cbn [first_of].
      * destruct matches as [|x ms]; [discriminate|].
        assert (Hin : In x (sort by_date_desc (x :: ms)))
          by (apply sort_In; left; reflexivity).
        rewrite Hsort in Hin. destruct Hin.
      * apply (sort_In by_date_desc). rewrite Hsort. left. reflexivity.
    + eexists _, []. split; [reflexivity|]. split; [reflexivity|].
      destruct matches as [|m [|m' ms]]; cbn [length Nat.eqb first_of].
      * reflexivity.
      * left. reflexivity.
      * discriminate.
  - intros Hmiss.
    pose proof (attempt_cases this w Hsync Hfixed) as Hatt.
    pose proof (body_factor (sync fuel this) this w) as Hf.
    change (sync_body (sync fuel this) this w) with (sync (S fuel) this w) in Hf.
    destruct (attempt_lists_on_miss _ _ _ Hatt Hmiss) as (evs & b & Hone).
    fold c in Hone.
    destruct (sync 1 this w) as [[] w'|?|w1]; [|contradiction|].
    + rewrite Hf. exists evs, b. exact Hone.
    + destruct Hf as (_ & _ & error & ->). cbn [final_world] in Hone.
      destruct (restart_extends fuel this w1
                  (EvReportFail (info_name (portmanCollection this)) error)
                  Hsync Hfixed) as [evs' Hevs].
      rewrite Hevs, Hone. exists (evs' ++ evs), b. apply app_assoc.
  - apply (sync_preserves (fun w' => writes_keyed collName (log w'))
             this Hsync Hfixed).
    + intros w1 r HP Hatt. fold collName in Hatt.
      attempt_inv Hatt; cbn [writes_keyed last_read];
        rewrite ?last_read_console by assumption;
        cbn [writes_keyed last_read];
        rewrite ?writes_keyed_console by assumption;
        cbn [writes_keyed last_read];
        repeat split; try exact HP; intros k Hk;
        first [apply lookup_insert_ne | apply lookup_delete_ne]; congruence.
    + intros w1 ev Hev HP. cbn [log].
      destruct ev; try discriminate; exact HP.
Qed.

(** ** An unreadable cache file *)

Lemma sync_similar (fuel : nat) (this : Portman) (w1 w2 : World Env) :
  similar w1 w2 -> same_outcome (sync fuel this w1) (sync fuel this w2).
Proof.
  revert w1 w2. induction fuel as [|fuel IH]; intros w1 w2 Hsim; [exact Hsim|].
  destruct w1 as [e f1 lg], w2 as [e' f2 lg'].
  destruct Hsim as (He & Hlg & Hc). cbn [env log cache_file] in *. subst e' lg'.
  cbn [syncCollectionToPostman]. unfold syncCollectionToPostman_body.
  destruct (syncPostman (options this)); [|repeat split; assumption].
  destruct (truthy (postmanUid (options this))).
  - exec. oracle; repeat split; assumption.
  - exec. rewrite Hc.
    assert (Hend : forall (ok : bool) (c' : Cache),
               loaded (if ok then CacheJson c' else f1)
               = loaded (if ok then CacheJson c' else f2))
      by (intros [] c'; [reflexivity|exact Hc]).
    assert (Hrec : forall (e0 : Env) (ok : bool) (c' : Cache) (lg0 : list Event)
                          (k : Result Env unit -> Result Env unit),
               (forall r1 r2, same_outcome r1 r2 -> same_outcome (k r1) (k r2)) ->
               same_outcome
                 (k (sync fuel this (mkWorld e0 (if ok then CacheJson c' else f1) lg0)))
                 (k (sync fuel this (mkWorld e0 (if ok then CacheJson c' else f2) lg0)))).
    { intros e0 ok c' lg0 k Hk. apply Hk, IH. repeat split. apply Hend. }
    destruct (loaded f2 !! info_name (portmanCollection this)) as [ent|].
    + exec. destruct (truthy (remote_uid (FromCache ent))); exec; repeat oracle;
        try (repeat split; first [apply Hend | exact Hc]).
      match goal with
      | |- same_outcome ?a _ =>
          match a with
          | context K [sync fuel this ?x] =>
              let k := constr:(fun r : Result Env unit => ltac:(let t := context K [r] in exact t)) in
              apply (Hrec _ _ _ _ k)
          end
      end.
      intros [[] x1|? x1|x1] [[] x2|? x2|x2] Hr; cbn in Hr |- *; try contradiction;
        try exact Hr.
      destruct Hr as (-> & -> & Hr). repeat split. exact Hr.
    + destruct (find_frame (info_name (portmanCollection this)) e)
        as (f & evs & b & e1 & _ & Hfind).
      rewrite !Hfind. exec.
      destruct (truthy (remote_uid (FromListing f))); exec; repeat oracle;
        try (repeat split; first [apply Hend | exact Hc]).
      match goal with
      | |- same_outcome ?a _ =>
          match a with
          | context K [sync fuel this ?x] =>
              let k := constr:(fun r : Result Env unit => ltac:(let t := context K [r] in exact t)) in
              apply (Hrec _ _ _ _ k)
          end
      end.
      intros [[] x1|? x1|x1] [[] x2|? x2|x2] Hr; cbn in Hr |- *; try contradiction;
        try exact Hr.
      destruct Hr as (-> & -> & Hr). repeat split. exact Hr.
Qed.

(** C6. Loading the cache never throws: for every state of the cache
    file the load block leaves a cache in [portmanCache], the empty one
    when the file is missing or does not parse. A call started on such a
    file runs like the call started on a file holding the empty cache:
    the same requests, writes and printed lines, the same end (returned,
    or the same depth reached at any fuel), the same environment, and a
    cache file that loads to the same cache. *)
Theorem unreadable_cache_is_empty_cache :
  (forall w : World Env,
      try_catch parse_cache_file (fun _ => ret (∅ : Cache)) w
      = Returned (loaded (cache_file w)) w) /\
  loaded NoFile = ∅ /\ loaded Unparsable = ∅ /\
  (forall fuel this e lg,
      same_outcome (sync fuel this (mkWorld e NoFile lg))
                   (sync fuel this (mkWorld e (CacheJson ∅) lg)) /\
      same_outcome (sync fuel this (mkWorld e Unparsable lg))
                   (sync fuel this (mkWorld e (CacheJson ∅) lg))).
Proof.
  split; [exact load_returns|]. split; [reflexivity|]. split; [reflexivity|].
  intros fuel this e lg. split; apply sync_similar; repeat split.
Qed.

(** * Further properties *)

(** ** Normal forms of names *)

Lemma lower_ascii_facts (c : ascii) :
  is_upper (lower_ascii c) = false /\
  is_space (lower_ascii c) = is_space c /\
  lower_ascii (lower_ascii c) = lower_ascii c /\
  (is_space c = true -> is_upper c = false).
Proof.
  destruct c as [[] [] [] [] [] [] [] []]; vm_compute; repeat split; discriminate.
Qed.

Lemma toLowerCase_app (a b : string) :
  toLowerCase (a +:+ b) = toLowerCase a +:+ toLowerCase b.
Proof. induction a as [|c a IH]; simpl; [reflexivity|]. rewrite IH. reflexivity. Qed.

Lemma remove_whitespace_app (a b : string) :
  remove_whitespace (a +:+ b) = remove_whitespace a +:+ remove_whitespace b.
Proof.
  induction a as [|c a IH]; simpl; [reflexivity|].
  rewrite IH. destruct (is_space c); reflexivity.
Qed.

Lemma normalize_app (a b : string) :
  normalize (a +:+ b) = normalize a +:+ normalize b.
Proof. unfold normalize. rewrite toLowerCase_app. apply remove_whitespace_app. Qed.

Lemma normalize_whitespace (ws : string) :
  all_chars is_space ws = true -> normalize ws = "".
Proof.
  unfold normalize. induction ws as [|c ws IH]; simpl; [reflexivity|].
  intros H. apply andb_prop in H as [Hc Hws].
  destruct (lower_ascii_facts c) as (_ & -> & _). rewrite Hc. apply IH. exact Hws.
Qed.

Lemma normalize_clean (s : string) :
  all_chars (fun c => negb (is_space c) && negb (is_upper c)) (normalize s) = true /\
  toLowerCase (normalize s) = normalize s /\
  remove_whitespace (normalize s) = normalize s.
Proof.
  unfold normalize. induction s as [|c s (IH1 & IH2 & IH3)]; simpl; [repeat split|].
  destruct (lower_ascii_facts c) as (Hup & Hsp & Hlow & _).
  destruct (is_space (lower_ascii c)) eqn:Hc; [repeat split; assumption|].
  simpl. rewrite Hc, Hup, Hlow, IH1, IH2, IH3. repeat split.
Qed.

(** X1. The normal form of a name holds no whitespace and no upper-case
    letter, and normalising it again changes nothing. *)
Theorem normalize_idempotent (s : string) :
  normalize (normalize s) = normalize s /\
  all_chars (fun c => negb (is_space c) && negb (is_upper c)) (normalize s) = true.
Proof.
  destruct (normalize_clean s) as (Hclean & Hlow & Hws). split; [|exact Hclean].
  unfold normalize at 1. rewrite Hlow. exact Hws.
Qed.

Lemma toLowerCase_empty (a a' : string) :
  toLowerCase a = toLowerCase a' -> (a = "" <-> a' = "").
Proof.
  destruct a, a'; simpl; intros H; split; intros E; try reflexivity; discriminate.
Qed.

Lemma normalize_same_letters (a a' : string) :
  toLowerCase a = toLowerCase a' -> normalize a = normalize a'.
Proof. unfold normalize. intros ->. reflexivity. Qed.

(** X2. The filter of the listing ignores letter case and whitespace on
    both sides: changing the case of letters and inserting whitespace, in
    the collection's name or in the name of a listed summary, do not
    change whether the summary matches. *)
Theorem matching_ignores_case_and_whitespace (a a' ws b b' : string) (o : Summary)
    (uid : option string) (t : Z) (name : string) :
  all_chars is_space ws = true ->
  toLowerCase a = toLowerCase a' ->
  toLowerCase b = toLowerCase b' ->
  name_matches (a +:+ ws +:+ b) o = name_matches (a' +:+ b') o /\
  (a' +:+ b' <> "" ->
   name_matches name (mkSummary (Some (a +:+ ws +:+ b)) uid t)
   = name_matches name (mkSummary (Some (a' +:+ b')) uid t)).
Proof.
  intros Hws Ha Hb.
  assert (Hn : normalize (a +:+ ws +:+ b) = normalize (a' +:+ b')).
  { rewrite !normalize_app, (normalize_whitespace ws Hws).
    rewrite (normalize_same_letters a a' Ha), (normalize_same_letters b b' Hb).
    reflexivity. }
  split.
  - unfold name_matches. rewrite Hn. reflexivity.
  - intros Hne. unfold name_matches. cbn [s_name truthy]. rewrite Hn.
    assert (Hne' : a +:+ ws +:+ b <> "").
    { intros Heq. apply Hne. destruct a as [|c a]; [|discriminate].
      destruct ws as [|c ws]; [|discriminate]. destruct b as [|c b]; [|discriminate].
      rewrite (proj1 (toLowerCase_empty "" a' Ha) eq_refl).
      rewrite (proj1 (toLowerCase_empty "" b' Hb) eq_refl). reflexivity. }
    destruct (String.eqb_spec (a +:+ ws +:+ b) ""); [contradiction|].
    destruct (String.eqb_spec (a' +:+ b') ""); [contradiction|]. reflexivity.
Qed.

(** ** The sort of the matches *)

Lemma insert_sorted_perm (x : Summary) (l : list Summary) :
  Permutation (insert_sorted by_date_desc x l) (x :: l).
Proof.
  induction l as [|y l IH]; simpl; [reflexivity|].
  destruct (by_date_desc x y <=? 0)%Z; [reflexivity|].
  rewrite IH. apply perm_swap.
Qed.

Lemma insert_sorted_descending (x : Summary) (l : list Summary) :
  StronglySorted not_older l ->
  StronglySorted not_older (insert_sorted by_date_desc x l).
Proof.
  induction 1 as [|y l Hl IH Hy]; simpl.
  - constructor; constructor.
  - unfold by_date_desc at 1. destruct (Z.leb_spec (s_updatedAt y - s_updatedAt x) 0).
    + constructor; [constructor; assumption|].
      constructor; [unfold not_older; lia|].
      eapply Forall_impl; [exact Hy|]. unfold not_older. intros z Hz. lia.
    + constructor; [exact IH|].
      rewrite List.Forall_forall in *. intros z Hz.
      apply (Permutation_in _ (insert_sorted_perm x l)) in Hz.
      destruct Hz as [<-|Hz]; [unfold not_older; lia|apply Hy; exact Hz].
Qed.

(** X3. Sorting the matches by date rearranges them without losing or
    duplicating any, newest first. *)
Theorem sort_by_date_descending (l : list Summary) :
  Permutation (sort by_date_desc l) l /\
  StronglySorted not_older (sort by_date_desc l).
Proof.
  induction l as [|x l [IHp IHs]]; simpl.
  - split; constructor.
  - split.
    + rewrite insert_sorted_perm. constructor. exact IHp.
    + apply insert_sorted_descending. exact IHs.
Qed.

Lemma insert_sorted_same_date (k : Z) (x : Summary) (l : list Summary) :
  List.filter (fun y => (s_updatedAt y =? k)%Z) (insert_sorted by_date_desc x l)
  = List.filter (fun y => (s_updatedAt y =? k)%Z) (x :: l).
Proof.
  induction l as [|y l IH]; [reflexivity|].
  cbn [insert_sorted]. unfold by_date_desc at 1.
  destruct (Z.leb_spec (s_updatedAt y - s_updatedAt x) 0); [reflexivity|].
  cbn [List.filter] in *. rewrite IH.
  destruct (Z.eqb_spec (s_updatedAt y) k), (Z.eqb_spec (s_updatedAt x) k);
    try reflexivity. lia.
Qed.

(** X4. The sort is stable: summaries with the same date come out in the
    order in which the listing had them. *)
Theorem sort_by_date_stable (k : Z) (l : list Summary) :
  List.filter (fun y => (s_updatedAt y =? k)%Z) (sort by_date_desc l)
  = List.filter (fun y => (s_updatedAt y =? k)%Z) l.
Proof.
  induction l as [|x l IH]; [reflexivity|].
  change (sort by_date_desc (x :: l))
    with (insert_sorted by_date_desc x (sort by_date_desc l)).
  rewrite insert_sorted_same_date. cbn [List.filter]. rewrite IH. reflexivity.
Qed.

(** ** isGuid *)

Lemma hex_digits_length (n : nat) (s r : string) :
  hex_digits n s = Some r -> String.length s = n + String.length r.
Proof.
  revert s. induction n as [|n IH]; intros s H; simpl in H.
  - injection H as ->. reflexivity.
  - destruct s as [|c s]; [discriminate|].
    destruct (is_hex_digit c); [|discriminate].
    simpl. rewrite (IH s H). reflexivity.
Qed.

Lemma literal_length (c : ascii) (s r : string) :
  literal c s = Some r -> String.length s = 1 + String.length r.
Proof.
  destruct s as [|c' s]; simpl; [discriminate|].
  destruct (Ascii.eqb c' c); [|discriminate]. intros H. injection H as ->. reflexivity.
Qed.

Lemma match_items_length (items : list Item) (s r : string) :
  match_items items s = Some r -> String.length s = width items + String.length r.
Proof.
  revert s. induction items as [|[n|c] items IH]; intros s H; simpl in H.
  - injection H as ->. reflexivity.
  - destruct (hex_digits n s) as [r'|] eqn:Hh; [|discriminate].
    rewrite (hex_digits_length n s r' Hh), (IH r' H). simpl. lia.
  - destruct (literal c s) as [r'|] eqn:Hl; [|discriminate].
    rewrite (literal_length c s r' Hl), (IH r' H). simpl. lia.
Qed.

Lemma guid_end_length (r : string) :
  guid_end r = true -> (String.length r <= 1)%nat.
Proof.
  unfold guid_end. destruct r as [|c [|c' r]]; simpl; try lia.
  destruct (Ascii.eqb c "}"); simpl; discriminate.
Qed.

Lemma guid_body_length (s : string) :
  guid_body s = true -> (36 <= String.length s <= 37)%nat.
Proof.
  unfold guid_body. destruct (match_items guid_groups s) as [r|] eqn:Hm; [|discriminate].
  intros Hend. apply guid_end_length in Hend.
  apply match_items_length in Hm. simpl in Hm. lia.
Qed.

(** X15. Whatever [isGuid] accepts is a string of 36 characters plus one
    for each brace it has, so of 36 to 38 characters; a missing value is
    rejected. *)
Theorem isGuid_length (value : option string) :
  isGuid value = true ->
  exists s, value = Some s /\ (36 <= String.length s <= 38)%nat.
Proof.
  destruct value as [s|]; [|discriminate]. intros H. exists s. split; [reflexivity|].
  unfold isGuid in H. cbn [default from_option id] in H. unfold guid_test in H.
  apply orb_prop in H as [H|H].
  - destruct (literal "{" s) as [r|] eqn:Hl; [|discriminate].
    apply literal_length in Hl. apply guid_body_length in H. lia.
  - apply guid_body_length in H. lia.
Qed.

Lemma hex_digits_app (n : nat) (s r t : string) :
  hex_digits n s = Some r -> hex_digits n (s +:+ t) = Some (r +:+ t).
Proof.
  revert s. induction n as [|n IH]; intros s H; simpl in H.
  - injection H as ->. reflexivity.
  - destruct s as [|c s]; [discriminate|]. simpl.
    destruct (is_hex_digit c); [apply IH; exact H|discriminate].
Qed.

Lemma match_items_app (items : list Item) (s r t : string) :
  match_items items s = Some r -> match_items items (s +:+ t) = Some (r +:+ t).
Proof.
  revert s. induction items as [|[n|c] items IH]; intros s H; simpl in H |- *.
  - injection H as ->. reflexivity.
  - destruct (hex_digits n s) as [r'|] eqn:Hh; [|discriminate].
    rewrite (hex_digits_app n s r' t Hh). apply IH. exact H.
  - destruct s as [|c' s]; [discriminate|]. simpl in *.
    destruct (Ascii.eqb c' c); [apply IH; exact H|discriminate].
Qed.

(** X16. The two braces of the pattern are optional one by one: a string
    of 36 characters that [isGuid] accepts is accepted as well with an
    opening brace only, with a closing brace only, and with both. *)
Theorem isGuid_braces_independent (s : string) :
  String.length s = 36 ->
  isGuid (Some s) = true ->
  isGuid (Some ("{" +:+ s)) = true /\
  isGuid (Some (s +:+ "}")) = true /\
  isGuid (Some ("{" +:+ s +:+ "}")) = true.
Proof.
  intros Hlen H. unfold isGuid in *. cbn [default from_option id] in *.
  assert (Hbody : guid_body s = true).
  { unfold guid_test in H. apply orb_prop in H as [H|H]; [|exact H].
    destruct (literal "{" s) as [r|] eqn:Hl; [|discriminate].
    apply literal_length in Hl. apply guid_body_length in H. lia. }
  assert (Hclose : guid_body (s +:+ "}") = true).
  { unfold guid_body in *.
    destruct (match_items guid_groups s) as [r|] eqn:Hm; [|discriminate].
    pose proof (match_items_length _ _ _ Hm) as Hl. simpl in Hl.
    destruct r; [|simpl in Hl; lia].
    rewrite (match_items_app _ _ _ "}" Hm). reflexivity. }
  unfold guid_test. repeat split.
  - change (literal "{" ("{" +:+ s)) with (Some s). cbv beta iota.
    rewrite Hbody. reflexivity.
  - rewrite Hclose. apply orb_true_r.
  - change (literal "{" ("{" +:+ s +:+ "}")) with (Some (s +:+ "}")).
    cbv beta iota. rewrite Hclose. reflexivity.
Qed.

Lemma lower_ascii_guid (c : ascii) :
  is_hex_digit (lower_ascii c) = is_hex_digit c /\
  Ascii.eqb (lower_ascii c) "-" = Ascii.eqb c "-" /\
  Ascii.eqb (lower_ascii c) "{" = Ascii.eqb c "{" /\
  Ascii.eqb (lower_ascii c) "}" = Ascii.eqb c "}".
Proof.
  destruct c as [[] [] [] [] [] [] [] []]; vm_compute; repeat split.
Qed.

Lemma hex_digits_lower (n : nat) (s : string) :
  hex_digits n (toLowerCase s) = option_map toLowerCase (hex_digits n s).
Proof.
  revert s. induction n as [|n IH]; intros s; [reflexivity|].
  destruct s as [|c s]; [reflexivity|]. simpl.
  destruct (lower_ascii_guid c) as (-> & _).
  destruct (is_hex_digit c); [apply IH|reflexivity].
Qed.

Lemma literal_lower (c : ascii) (s : string) :
  (forall c', Ascii.eqb (lower_ascii c') c = Ascii.eqb c' c) ->
  literal c (toLowerCase s) = option_map toLowerCase (literal c s).
Proof.
  intros Hc. destruct s as [|c' s]; [reflexivity|]. simpl. rewrite Hc.
  destruct (Ascii.eqb c' c); reflexivity.
Qed.

Lemma guid_body_lower (s : string) : guid_body (toLowerCase s) = guid_body s.
Proof.
  assert (Hdash : forall c', Ascii.eqb (lower_ascii c') "-" = Ascii.eqb c' "-")
    by (intros c'; apply lower_ascii_guid).
  assert (Hclose : forall c', Ascii.eqb (lower_ascii c') "}" = Ascii.eqb c' "}")
    by (intros c'; apply lower_ascii_guid).
  assert (Hend : forall r, guid_end (toLowerCase r) = guid_end r).
  { intros r. unfold guid_end. rewrite (literal_lower "}" r Hclose).
    destruct r as [|c r]; [reflexivity|]. simpl.
    destruct (Ascii.eqb c "}"); [|reflexivity]. destruct r; reflexivity. }
  unfold guid_body, guid_groups. cbn [match_items].
  repeat (rewrite ?hex_digits_lower, ?(literal_lower "-" _ Hdash);
          match goal with
          | |- context [option_map toLowerCase ?o] =>
              destruct o; cbn [option_map]; [|reflexivity]
          end).
  apply Hend.
Qed.

(** X17. [isGuid] does not tell upper-case from lower-case hexadecimal
    digits: a text and its lower-case form are accepted or rejected
    together. *)
Theorem isGuid_ignores_case (s : string) :
  isGuid (Some (toLowerCase s)) = isGuid (Some s).
Proof.
  unfold isGuid. cbn [default from_option id]. unfold guid_test.
  rewrite guid_body_lower.
  rewrite (literal_lower "{" s) by (intros c'; apply lower_ascii_guid).
  destruct (literal "{" s) as [r|]; cbn [option_map]; [|reflexivity].
  rewrite guid_body_lower. reflexivity.
Qed.

(** ** writePortmanCollectionToFile *)

Lemma starts_with_spec (search s : string) :
  starts_with search s = true <-> exists b, s = search +:+ b.
Proof.
  revert s. induction search as [|c search IH]; intros s; simpl.
  - split; [intros _; exists s; reflexivity|reflexivity].
  - destruct s as [|c' s].
    + split; [discriminate|]. intros [b Hb]. discriminate.
    + rewrite andb_true_iff, IH, Ascii.eqb_eq. split.
      * intros [-> [b ->]]. exists b. reflexivity.
      * intros [b Hb]. injection Hb as -> ->. split; [reflexivity|]. exists b. reflexivity.
Qed.

Lemma includes_spec (search s : string) :
  includes search s = true <-> exists a b, s = a +:+ search +:+ b.
Proof.
  induction s as [|c s IH].
  - cbn [includes]. rewrite orb_false_r, starts_with_spec. split.
    + intros [b Hb]. exists "", b. exact Hb.
    + intros (a & b & Hab). destruct a; [|discriminate]. exists b. exact Hab.
  - cbn [includes]. rewrite orb_true_iff, starts_with_spec, IH. split.
    + intros [[b Hb]|(a & b & Hab)].
      * exists "", b. exact Hb.
      * exists (String c a), b. simpl. rewrite Hab. reflexivity.
    + intros (a & b & Hab). destruct a as [|c' a].
      * left. exists b. exact Hab.
      * right. simpl in Hab. injection Hab as -> ->. exists a, b. reflexivity.
Qed.

Variable Replacements : Type.
Variable camelCase : string -> string.
Variable writeRawReplacements : string -> Replacements -> option string.
Variable fs_write : string -> string -> bool.

Local Abbreviation write_collection :=
  (writePortmanCollectionToFile camelCase writeRawReplacements fs_write).

(** X18. An output option is refused exactly when the text ".json" occurs
    nowhere in it: the method then prints the "only .json filenames"
    line and exits with code 0, before anything is written. A name that
    has ".json" in the middle, not as its extension, passes the check. *)
Theorem output_needs_json_somewhere (i : WriteInput Replacements) (f : string) :
  w_output i = Some f ->
  f <> "" ->
  (write_collection i = ProcessExit 0 (only_json_message f)
   <-> ~ exists a b, f = a +:+ ".json" +:+ b).
Proof.
  intros Hout Hne. rewrite <- includes_spec.
  unfold writePortmanCollectionToFile. rewrite Hout, (truthy_Some f Hne).
  change (default "" (Some f)) with f.
  destruct (includes ".json" f); cbn [negb].
  - split; [|intros H; exfalso; apply H; reflexivity].
    intros H. exfalso.
    destruct (match w_replacements i with
              | Some r => writeRawReplacements (w_json i) r
              | None => Some (w_json i)
              end) as [text|]; [destruct (fs_write f text)|]; discriminate.
  - split; [intros _; discriminate|reflexivity].
Qed.

(** X19. The method writes at most one file and never throws: when it
    writes, the path is the output option as given, or, without one, the
    camel-cased collection name (or "portman-collection" for a nameless
    collection) under ./tmp/converted with the extension .json, and the
    text is the collection's JSON after the replacements; every other
    way out, a refused output name, a failed replacement or a failed
    write, is an exit with code 0. *)
Theorem write_collection_outcome (i : WriteInput Replacements) :
  match write_collection i with
  | FileWritten path text =>
      fs_write path text = true /\
      path = (if truthy (w_output i) then default "" (w_output i)
              else "./tmp/converted/"
                   +:+ camelCase (if truthy (w_name i) then default "" (w_name i)
                                  else "portman-collection")
                   +:+ ".json") /\
      match w_replacements i with
      | Some r => writeRawReplacements (w_json i) r = Some text
      | None => text = w_json i
      end
  | ProcessExit code _ => code = 0%Z
  end.
Proof.
  unfold writePortmanCollectionToFile.
  destruct (truthy (w_output i)).
  - destruct (includes ".json" (default "" (w_output i))); cbn [negb]; [|reflexivity].
    destruct (w_replacements i) as [r|].
    + destruct (writeRawReplacements (w_json i) r) as [text|] eqn:Hr; [|reflexivity].
      destruct (fs_write _ text) eqn:Hw; [|reflexivity]. repeat split; assumption.
    + destruct (fs_write _ (w_json i)) eqn:Hw; [|reflexivity]. repeat split; assumption.
  - destruct (w_replacements i) as [r|].
    + destruct (writeRawReplacements (w_json i) r) as [text|] eqn:Hr; [|reflexivity].
      destruct (fs_write _ text) eqn:Hw; [|reflexivity]. repeat split; assumption.
    + destruct (fs_write _ (w_json i)) eqn:Hw; [|reflexivity]. repeat split; assumption.
Qed.

(** ** The lookup by name, case by case *)

(** X5. [findCollectionByName] never throws and never touches the cache
    file: for every environment it sends exactly one request, the
    listing, prints at most one line, and returns. *)
Theorem find_always_returns (collName : string) (w : World Env) :
  exists f evs,
    find collName w
    = Returned f
        (mkWorld (snd (axios_get (env w))) (cache_file w)
           (evs ++ EvAxios GET (is_fulfilled (fst (axios_get (env w)))) :: log w)) /\
    forallb is_console evs = true /\
    (length evs <= 1)%nat.
Proof.
  unfold_engine.
  destruct (axios_get (env w)) as [[[d|]|err] e'] eqn:Hget; cbn [fst snd is_fulfilled].
  - destruct (collections d) as [l|].
    + destruct (1 <? length (List.filter (name_matches collName) l))%nat.
      * eexists _, [EvWarnMultiple collName]. repeat split. simpl. lia.
      * eexists _, []. repeat split. simpl. lia.
    + eexists _, []. repeat split. simpl. lia.
  - eexists _, [EvLogError None]. repeat split. simpl. lia.
  - eexists _, [EvLogError (err_response_data err)]. repeat split. simpl. lia.
Qed.

Lemma find_single (collName : string) (w : World Env) (l : list Summary)
    (m : Summary) (e1 : Env) :
  axios_get (env w) = (Fulfilled (Some (mkListing (Some l))), e1) ->
  List.filter (name_matches collName) l = [m] ->
  find collName w
  = Returned (FoundMatch m) (mkWorld e1 (cache_file w) (EvAxios GET true :: log w)).
Proof.
  intros Hget Hm. rewrite (find_listed collName w l e1 Hget), Hm. reflexivity.
Qed.

Lemma find_none (collName : string) (w : World Env) (l : list Summary) (e1 : Env) :
  axios_get (env w) = (Fulfilled (Some (mkListing (Some l))), e1) ->
  List.filter (name_matches collName) l = [] ->
  find collName w
  = Returned FoundNone (mkWorld e1 (cache_file w) (EvAxios GET true :: log w)).
Proof.
  intros Hget Hm. rewrite (find_listed collName w l e1 Hget), Hm. reflexivity.
Qed.

(** X6. What the lookup returns on a fulfilled listing: the one match,
    without a warning, when exactly one summary matches; the empty
    object when none matches or the response has no [collections]; and
    the text of the caught TypeError, after printing [undefined], when
    the response has no body. *)
Theorem find_by_cases (collName : string) (w : World Env) (e1 : Env) :
  let listed := mkWorld e1 (cache_file w) (EvAxios GET true :: log w) in
  (forall l m,
      axios_get (env w) = (Fulfilled (Some (mkListing (Some l))), e1) ->
      List.filter (name_matches collName) l = [m] ->
      find collName w = Returned (FoundMatch m) listed) /\
  (forall l,
      axios_get (env w) = (Fulfilled (Some (mkListing (Some l))), e1) ->
      List.filter (name_matches collName) l = [] ->
      find collName w = Returned FoundNone listed) /\
  (axios_get (env w) = (Fulfilled (Some (mkListing None)), e1) ->
   find collName w = Returned FoundNone listed) /\
  (axios_get (env w) = (Fulfilled None, e1) ->
   find collName w
   = Returned (FoundError (err_toString TypeError))
       (mkWorld e1 (cache_file w)
          (EvLogError None :: EvAxios GET true :: log w))).
Proof.
  intros listed. split; [|split; [|split]].
  - intros l m Hget Hm. exact (find_single collName w l m e1 Hget Hm).
  - intros l Hget Hm. exact (find_none collName w l e1 Hget Hm).
  - intros Hget. unfold_engine. rewrite Hget. reflexivity.
  - intros Hget. unfold_engine. rewrite Hget. reflexivity.
Qed.

(** ** Creating *)

Lemma create_after_miss (fuel : nat) (this : Portman) (w : World Env)
    (f : Found) (lg1 : list Event) (e1 : Env) :
  let collName := info_name (portmanCollection this) in
  let c := loaded (cache_file w) in
  syncPostman (options this) = true ->
  truthy (postmanUid (options this)) = false ->
  c !! collName = None ->
  find collName (mkWorld (env w) (cache_file w) (EvRead c :: log w))
  = Returned f (mkWorld e1 (cache_file w) lg1) ->
  truthy (remote_uid (FromListing f)) = false ->
  sync (S fuel) this w = created axios_post disk_write this w e1 lg1.
Proof.
  intros collName c Hsync Hfixed Hmiss Hfind Hu.
  subst c collName. destruct w as [e file lg]. cbn [env cache_file log] in *.
  cbn [syncCollectionToPostman]. unfold syncCollectionToPostman_body, created.
  rewrite Hsync, Hfixed. exec. rewrite Hmiss, Hfind. exec. rewrite Hu. exec.
  cbn [cache_file].
  destruct (axios_post (portmanCollection this) e1) as [[d|error] e2]; exec;
    [destruct (disk_write e2) as [ok e3]; exec|]; reflexivity.
Qed.

Lemma create_after_hit (fuel : nat) (this : Portman) (w : World Env) (ent : Entry) :
  let collName := info_name (portmanCollection this) in
  let c := loaded (cache_file w) in
  syncPostman (options this) = true ->
  truthy (postmanUid (options this)) = false ->
  c !! collName = Some ent ->
  truthy (e_uid ent) = false ->
  sync (S fuel) this w
  = created axios_post disk_write this w (env w) (EvRead c :: log w).
Proof.
  intros collName c Hsync Hfixed Hhit Hu.
  subst c collName. destruct w as [e file lg]. cbn [env cache_file log] in *.
  cbn [syncCollectionToPostman]. unfold syncCollectionToPostman_body, created.
  rewrite Hsync, Hfixed. exec. rewrite Hhit. exec. cbn [remote_uid]. rewrite Hu. exec.
  cbn [cache_file].
  destruct (axios_post (portmanCollection this) e) as [[d|error] e2]; exec;
    [destruct (disk_write e2) as [ok e3]; exec|]; reflexivity.
Qed.

(** X7. On a cache miss, a listing in which no summary matches the name
    makes the method create the collection: its only requests are the
    listing and one POST and it returns without recursion; when the POST
    is fulfilled the cache is written with the new item, when it is
    rejected the failure is reported and nothing is written. *)
Theorem no_match_creates (fuel : nat) (this : Portman) (w : World Env)
    (l : list Summary) (e1 : Env) :
  let collName := info_name (portmanCollection this) in
  let c := loaded (cache_file w) in
  syncPostman (options this) = true ->
  truthy (postmanUid (options this)) = false ->
  c !! collName = None ->
  axios_get (env w) = (Fulfilled (Some (mkListing (Some l))), e1) ->
  List.filter (name_matches collName) l = [] ->
  sync (S fuel) this w
  = created axios_post disk_write this w e1
      (EvAxios GET true :: EvRead c :: log w) /\
  exists b,
    List.filter is_request (log (final_world (sync (S fuel) this w)))
    = EvAxios POST b :: EvAxios GET true :: List.filter is_request (log w).
Proof.
  intros collName c Hsync Hfixed Hmiss Hget Hnone.
  assert (Hrun : sync (S fuel) this w
                 = created axios_post disk_write this w e1
                     (EvAxios GET true :: EvRead c :: log w)).
  { apply (create_after_miss fuel this w FoundNone); try assumption; [|reflexivity].
    exact (find_none collName (mkWorld (env w) (cache_file w) (EvRead c :: log w))
             l e1 Hget Hnone). }
  split; [exact Hrun|]. rewrite Hrun. unfold created.
  destruct (axios_post (portmanCollection this) e1) as [[d|error] e2];
    eexists; reflexivity.
Qed.

(** X8. A cached item for the name that carries no identifier (no [uid],
    or an empty one) still counts as a hit: the listing is not requested,
    and since there is nothing to update the method creates a new
    collection. *)
Theorem cached_item_without_uid_creates (fuel : nat) (this : Portman)
    (w : World Env) (ent : Entry) :
  let collName := info_name (portmanCollection this) in
  let c := loaded (cache_file w) in
  syncPostman (options this) = true ->
  truthy (postmanUid (options this)) = false ->
  c !! collName = Some ent ->
  truthy (e_uid ent) = false ->
  sync (S fuel) this w
  = created axios_post disk_write this w (env w) (EvRead c :: log w) /\
  exists b,
    List.filter is_request (log (final_world (sync (S fuel) this w)))
    = EvAxios POST b :: List.filter is_request (log w).
Proof.
  intros collName c Hsync Hfixed Hhit Hu.
  pose proof (create_after_hit fuel this w ent Hsync Hfixed Hhit Hu) as Hrun.
  split; [exact Hrun|]. rewrite Hrun. unfold created.
  destruct (axios_post (portmanCollection this) (env w)) as [[d|error] e2];
    eexists; reflexivity.
Qed.

(** ** Whether the service is contacted *)





(** ** Two calls in a row, and a call with its restart *)

Lemma report_extends (m : M Env unit) (ev : Event) (w1 : World Env) :
  extends (log (final_world (m w1)))
    (log (final_world ((m ;;; console_log ev) w1))).
Proof.
  unfold bind. destruct (m w1) as [[] w2|? w2|w2]; cbn [final_world].
  - exists [ev]. reflexivity.
  - exists []. reflexivity.
  - exists []. reflexivity.
Qed.

Lemma hit_update_first (fuel : nat) (this : Portman) (w : World Env)
    (ent : Entry) (uid : string) :
  let collName := info_name (portmanCollection this) in
  let c := loaded (cache_file w) in
  syncPostman (options this) = true ->
  truthy (postmanUid (options this)) = false ->
  c !! collName = Some ent ->
  e_uid ent = Some uid ->
  uid <> "" ->
  exists evs b,
    log (final_world (sync (S fuel) this w))
    = evs ++ EvAxios (PUT uid) b :: EvRead c :: log w.
Proof.
  intros collName c Hsync Hfixed Hhit Huid Hne. subst c collName.
  destruct (axios_put (portmanCollection this) uid (env w)) as [[d|error] e1] eqn:Hput.
  - rewrite (cached_update_ok fuel this w ent uid d e1
               Hsync Hfixed Hhit Huid Hne Hput).
    cbn [final_world log]. eexists [_; _], true. reflexivity.
  - rewrite (cached_update_failed fuel this w ent uid error e1
               Hsync Hfixed Hhit Huid Hne Hput).
    match goal with
    | |- context [(sync fuel this ;;; console_log ?ev) ?w1] =>
        destruct (restart_extends fuel this w1 ev Hsync Hfixed) as [evs Hevs]
    end.
    rewrite Hevs. cbn [log]. eexists (evs ++ [_]), false.
    rewrite <- app_assoc. reflexivity.
Qed.

(** X10. A successful create fills the cache for the next call: when the
    POST is fulfilled with an identifier and the cache file is written,
    the file holds the name with that identifier, and the next call,
    whatever the service then answers, starts with the update of that
    identifier and requests no listing before it. *)
Theorem create_populates_cache (fuel fuel' : nat) (this : Portman) (w : World Env)
    (l : list Summary) (d : option Payload) (uid : string) (e1 e2 e3 : Env) :
  let collName := info_name (portmanCollection this) in
  let c := loaded (cache_file w) in
  let c' := <[collName := mkEntry (Some collName) (Some uid)]> c in
  syncPostman (options this) = true ->
  truthy (postmanUid (options this)) = false ->
  c !! collName = None ->
  axios_get (env w) = (Fulfilled (Some (mkListing (Some l))), e1) ->
  List.filter (name_matches collName) l = [] ->
  axios_post (portmanCollection this) e1 = (Fulfilled d, e2) ->
  collection_uid d = Some uid ->
  uid <> "" ->
  disk_write e2 = (true, e3) ->
  exists w1,
    sync (S fuel) this w = Returned tt w1 /\
    cache_file w1 = CacheJson c' /\
    exists evs b,
      log (final_world (sync (S fuel') this w1))
      = evs ++ EvAxios (PUT uid) b :: EvRead c' :: log w1.
Proof.
  intros collName c c' Hsync Hfixed Hmiss Hget Hnone Hpost Huid Hne Hdisk.
  assert (Hitem : cache_item collName d = mkEntry (Some collName) (Some uid))
    by (unfold cache_item; rewrite Huid; reflexivity).
  exists (mkWorld e3 (CacheJson c')
            (EvReportSuccess (collection_name d) (collection_uid d)
             :: EvWrite c' true :: EvLogCreate d :: EvAxios POST true
             :: EvAxios GET true :: EvRead c :: log w)).
  split; [|split; [reflexivity|]].
  - rewrite (create_after_miss fuel this w FoundNone
               (EvAxios GET true :: EvRead c :: log w) e1 Hsync Hfixed Hmiss
               (find_none collName (mkWorld (env w) (cache_file w) (EvRead c :: log w))
                  l e1 Hget Hnone)
               eq_refl).
    unfold created. rewrite Hpost, Hdisk. cbn [fst snd].
    fold collName c. rewrite Hitem. reflexivity.
  - match goal with
    | |- context [sync (S fuel') this ?w1] =>
        exact (hit_update_first fuel' this w1 (mkEntry (Some collName) (Some uid)) uid
                 Hsync Hfixed (lookup_insert_eq c collName _) eq_refl Hne)
    end.
Qed.

(** X11. A create whose response carries no identifier leaves an item
    without [uid] in the cache, and the next call, finding that item,
    creates the collection once more: it requests no listing and sends no
    update. *)
Theorem create_without_uid_repeats (fuel fuel' : nat) (this : Portman)
    (w : World Env) (l : list Summary) (d : option Payload) (e1 e2 e3 : Env) :
  let collName := info_name (portmanCollection this) in
  let c := loaded (cache_file w) in
  let c' := <[collName := mkEntry (Some collName) (collection_uid d)]> c in
  syncPostman (options this) = true ->
  truthy (postmanUid (options this)) = false ->
  c !! collName = None ->
  axios_get (env w) = (Fulfilled (Some (mkListing (Some l))), e1) ->
  List.filter (name_matches collName) l = [] ->
  axios_post (portmanCollection this) e1 = (Fulfilled d, e2) ->
  truthy (collection_uid d) = false ->
  disk_write e2 = (true, e3) ->
  exists w1,
    sync (S fuel) this w = Returned tt w1 /\
    cache_file w1 = CacheJson c' /\
    sync (S fuel') this w1
    = created axios_post disk_write this w1 (env w1) (EvRead c' :: log w1).
Proof.
  intros collName c c' Hsync Hfixed Hmiss Hget Hnone Hpost Huid Hdisk.
  eexists. split.
  - rewrite (create_after_miss fuel this w FoundNone
               (EvAxios GET true :: EvRead c :: log w) e1 Hsync Hfixed Hmiss
               (find_none collName (mkWorld (env w) (cache_file w) (EvRead c :: log w))
                  l e1 Hget Hnone)
               eq_refl).
    unfold created. rewrite Hpost, Hdisk. cbn [fst snd]. reflexivity.
  - split; [reflexivity|].
    match goal with
    | |- sync (S fuel') this ?w1 = _ =>
        exact (create_after_hit fuel' this w1
                 (mkEntry (Some collName) (collection_uid d))
                 Hsync Hfixed (lookup_insert_eq c collName _) Huid)
    end.
Qed.

(** X12. The self-heal of a stale cache: the update of the cached
    identifier is rejected, the cache is written without the name, and
    the nested call finds one match in the listing and updates it. The
    call returns after exactly these three requests; the cache written
    last maps the name to the identifier of the response; and the line
    printed last is still the failure report of the first update. *)
Theorem stale_cache_heals (fuel : nat) (this : Portman) (w : World Env)
    (ent : Entry) (uid0 uid1 : string) (error : JsError) (l : list Summary)
    (m : Summary) (d : option Payload) (e1 e2 e3 e4 : Env) :
  let collName := info_name (portmanCollection this) in
  let c := loaded (cache_file w) in
  let c1 := delete collName c in
  let c2 := <[collName := cache_item collName d]> c1 in
  syncPostman (options this) = true ->
  truthy (postmanUid (options this)) = false ->
  c !! collName = Some ent ->
  e_uid ent = Some uid0 ->
  uid0 <> "" ->
  axios_put (portmanCollection this) uid0 (env w) = (Rejected error, e1) ->
  disk_write e1 = (true, e2) ->
  axios_get e2 = (Fulfilled (Some (mkListing (Some l))), e3) ->
  List.filter (name_matches collName) l = [m] ->
  s_uid m = Some uid1 ->
  uid1 <> "" ->
  axios_put (portmanCollection this) uid1 e3 = (Fulfilled d, e4) ->
  sync (S (S fuel)) this w
  = Returned tt
      (mkWorld (snd (disk_write e4))
         (if fst (disk_write e4) then CacheJson c2 else CacheJson c1)
         (EvReportFail collName (data_error (err_response_data error))
          :: EvReportSuccess (collection_name d) (collection_uid d)
          :: EvWrite c2 (fst (disk_write e4))
          :: EvAxios (PUT uid1) true :: EvAxios GET true :: EvRead c1
          :: EvWrite c1 true :: EvAxios (PUT uid0) false :: EvRead c :: log w)).
Proof.
  intros collName c c1 c2 Hsync Hfixed Hhit Huid0 Hne0 Hput0 Hdisk Hget Hone
    Huid1 Hne1 Hput1.
  rewrite (cached_update_failed (S fuel) this w ent uid0 error e1
             Hsync Hfixed Hhit Huid0 Hne0 Hput0).
  rewrite Hdisk. cbn [fst snd]. unfold bind.
  rewrite (listed_update_ok fuel this _ (FoundMatch m)
             (EvAxios GET true :: EvRead c1 :: EvWrite c1 true
              :: EvAxios (PUT uid0) false :: EvRead c :: log w)
             uid1 d e3 e4 Hsync Hfixed).
  - reflexivity.
  - apply lookup_delete_eq.
  - cbn [env cache_file log loaded].
    exact (find_single collName
             (mkWorld e2 (CacheJson c1)
                (EvRead c1 :: EvWrite c1 true :: EvAxios (PUT uid0) false
                 :: EvRead c :: log w)) l m e3 Hget Hone).
  - exact Huid1.
  - exact Hne1.
  - exact Hput1.
Qed.

(** X22. A stale cache whose collection is gone from the service: the
    update of the cached identifier is rejected, the cache is written
    without the name, and the nested call, finding no match in the
    listing, creates the collection anew. The call returns at depth 2,
    with the report of the create followed by the failure report of the
    first update. *)
Theorem stale_cache_recreates (fuel : nat) (this : Portman) (w : World Env)
    (ent : Entry) (uid : string) (error : JsError) (l : list Summary)
    (e1 e2 e3 : Env) :
  let collName := info_name (portmanCollection this) in
  let c := loaded (cache_file w) in
  let c1 := delete collName c in
  let w1 := mkWorld e2 (CacheJson c1)
              (EvWrite c1 true :: EvAxios (PUT uid) false :: EvRead c :: log w) in
  syncPostman (options this) = true ->
  truthy (postmanUid (options this)) = false ->
  c !! collName = Some ent ->
  e_uid ent = Some uid ->
  uid <> "" ->
  axios_put (portmanCollection this) uid (env w) = (Rejected error, e1) ->
  disk_write e1 = (true, e2) ->
  axios_get e2 = (Fulfilled (Some (mkListing (Some l))), e3) ->
  List.filter (name_matches collName) l = [] ->
  exists w2,
    created axios_post disk_write this w1 e3
      (EvAxios GET true :: EvRead c1 :: log w1)
    = Returned tt w2 /\
    sync (S (S fuel)) this w
    = Returned tt
        (mkWorld (env w2) (cache_file w2)
           (EvReportFail collName (data_error (err_response_data error)) :: log w2)).
Proof.
  intros collName c c1 w1 Hsync Hfixed Hhit Huid Hne Hput Hdisk Hget Hnone.
  rewrite (cached_update_failed (S fuel) this w ent uid error e1
             Hsync Hfixed Hhit Huid Hne Hput).
  rewrite Hdisk. cbn [fst snd]. unfold bind. fold collName c c1 w1.
  rewrite (create_after_miss fuel this w1 FoundNone
             (EvAxios GET true :: EvRead c1 :: log w1) e3 Hsync Hfixed
             (lookup_delete_eq c collName)
             (find_none collName (mkWorld e2 (CacheJson c1) (EvRead c1 :: log w1))
                l e3 Hget Hnone)
             eq_refl).
  unfold created.
  destruct (axios_post (portmanCollection this) e3) as [[d|error2] e4];
    eexists; split; reflexivity.
Qed.

(** X13. When the write of the cache fails after a rejected update, the
    cache file still names the stale identifier, so the nested call sends
    the update to that same identifier again and requests no listing. *)
Theorem unwritable_cache_retries_same_uid (fuel : nat) (this : Portman)
    (w : World Env) (ent : Entry) (uid : string) (error : JsError) (e1 e2 : Env) :
  let collName := info_name (portmanCollection this) in
  let c := loaded (cache_file w) in
  syncPostman (options this) = true ->
  truthy (postmanUid (options this)) = false ->
  c !! collName = Some ent ->
  e_uid ent = Some uid ->
  uid <> "" ->
  axios_put (portmanCollection this) uid (env w) = (Rejected error, e1) ->
  disk_write e1 = (false, e2) ->
  exists evs b,
    log (final_world (sync (S (S fuel)) this w))
    = evs ++ EvAxios (PUT uid) b :: EvRead c
          :: EvWrite (delete collName c) false
          :: EvAxios (PUT uid) false :: EvRead c :: log w.
Proof.
  intros collName c Hsync Hfixed Hhit Huid Hne Hput Hdisk.
  rewrite (cached_update_failed (S fuel) this w ent uid error e1
             Hsync Hfixed Hhit Huid Hne Hput).
  rewrite Hdisk. cbn [fst snd].
  match goal with
  | |- context [(sync (S fuel) this ;;; console_log ?ev) ?w1] =>
      destruct (report_extends (sync (S fuel) this) ev w1) as [evs1 ->];
      destruct (hit_update_first fuel this w1 ent uid Hsync Hfixed Hhit Huid Hne)
        as (evs & b & ->)
  end.
  cbn [log cache_file]. exists (evs1 ++ evs), b. rewrite <- app_assoc. reflexivity.
Qed.

(** X14. A call whose first update (of the cached identifier) was
    rejected prints the failure report of that update as its last line
    whenever it returns, also when the restart it made succeeded. *)
Theorem first_failure_is_reported_last (fuel : nat) (this : Portman)
    (w w' : World Env) (ent : Entry) (uid : string) (error : JsError) (e1 : Env) :
  let collName := info_name (portmanCollection this) in
  let c := loaded (cache_file w) in
  syncPostman (options this) = true ->
  truthy (postmanUid (options this)) = false ->
  c !! collName = Some ent ->
  e_uid ent = Some uid ->
  uid <> "" ->
  axios_put (portmanCollection this) uid (env w) = (Rejected error, e1) ->
  sync (S fuel) this w = Returned tt w' ->
  exists lg,
    log w' = EvReportFail collName (data_error (err_response_data error)) :: lg /\
    extends (EvAxios (PUT uid) false :: EvRead c :: log w) lg.
Proof.
  intros collName c Hsync Hfixed Hhit Huid Hne Hput Hrun.
  rewrite (cached_update_failed fuel this w ent uid error e1
             Hsync Hfixed Hhit Huid Hne Hput) in Hrun.
  unfold bind in Hrun.
  match type of Hrun with
  | context [sync fuel this ?w1] =>
      pose proof (sync_extends fuel this w1 Hsync Hfixed) as Hext;
      destruct (sync fuel this w1) as [[] w2|? w2|w2]; try discriminate
  end.
  injection Hrun as <-. cbn [final_world log] in *. eexists. split; [reflexivity|].
  destruct Hext as [evs ->]. exists (evs ++ [EvWrite (delete collName c) (fst (disk_write e1))]).
  rewrite <- app_assoc. reflexivity.
Qed.

(** ** uploadOnly *)

Variable Loaded : Type.
Variable before : M Env unit.
Variable read_collection : string -> Env -> Settled Loaded * Env.
Variable sync_loaded : nat -> PortmanOptions -> Loaded -> M Env unit.

Local Abbreviation upload := (uploadOnly before read_collection sync_loaded).

Lemma truthy_eqb (output : option string) :
  String.eqb (if truthy output then default "" output else "") ""
  = negb (truthy output).
Proof.
  destruct output as [f|]; [|reflexivity]. cbn [truthy].
  destruct (String.eqb f "") eqn:Hf; cbn [negb]; [reflexivity|exact Hf].
Qed.

(** X20. The ways [uploadOnly] fails. Without an output option it throws
    "Loading  failed." before doing anything: [before] is not run and
    nothing is sent. An error of [before] escapes as it is. A collection
    file that cannot be read or parsed is reported as "Loading <output>
    failed." and the sync is not started: the log is as [before] left it. *)
Theorem uploadOnly_failures (fuel : nat) (output : option string) (this : Portman)
    (w : World Env) :
  (truthy output = false ->
   upload fuel output this w = Thrown (loading_failed "") w) /\
  (truthy output = true ->
   forall error w1, before w = Thrown error w1 ->
                    upload fuel output this w = Thrown error w1) /\
  (truthy output = true ->
   forall w1 error e2,
     before w = Returned tt w1 ->
     read_collection (default "" output) (env w1) = (Rejected error, e2) ->
     upload fuel output this w
     = Thrown (loading_failed (default "" output))
         (mkWorld e2 (cache_file w1) (log w1))).
Proof.
  unfold uploadOnly. rewrite truthy_eqb. split; [|split]; intros Hout; rewrite Hout.
  - reflexivity.
  - intros error w1 Hbefore. cbn [negb]. unfold bind. rewrite Hbefore. reflexivity.
  - intros w1 error e2 Hbefore Hread. cbn [negb].
    unfold bind, try_catch, load_collection, throw.
    rewrite Hbefore, Hread. reflexivity.
Qed.

End Properties.

(** * The properties on the scripted environments *)

Import Scenario.

(** C4 on a warm cache with the identifier "xyz" pinned. *)
Lemma override_updates_once_witness :
  exists s e' report,
    put billing "xyz" (env warm) = (s, e') /\
    run 1 (pinned "xyz") warm
    = Returned tt
        (mkWorld e' (cache_file warm)
           (report :: EvAxios (PUT "xyz") (is_fulfilled s) :: log warm)) /\
    report = match s with
             | Fulfilled d =>
                 EvReportSuccess (collection_name d) (collection_uid d)
             | Rejected error =>
                 EvReportFail "xyz" (data_error (err_response_data error))
             end.
Proof.
  apply (override_updates_once put post get write 0 (pinned "xyz") warm "xyz");
    [reflexivity | reflexivity | discriminate].
Defined.

(** C10 without a cache file and with the network down. *)
Lemma listing_failure_creates_witness :
  findCollectionByName get "Billing API" fresh_offline
  = Returned (FoundError "Error: Network Error")
      (mkWorld (env fresh_offline) NoFile [EvLogError None; EvAxios GET false]) /\
  run 1 by_name fresh_offline
  = Returned tt
      (mkWorld (env fresh_offline) NoFile
         [EvReportFail "Billing API" None; EvLogCreate None; EvAxios POST false;
          EvLogError None; EvAxios GET false; EvRead ∅]).
Proof.
  pose proof (listing_failure_creates put post get write 0 by_name fresh_offline
                network_error (env fresh_offline)
                eq_refl eq_refl eq_refl eq_refl) as H.
  split; [exact (proj1 H) | exact (proj2 (proj2 H))].
Defined.

(** C1 on the stale cache: the failed update of "abc" restarts the method
    on a world whose cache file no longer holds the name. *)
Lemma failed_update_restarts_witness :
  run 2 by_name stale
  = (syncCollectionToPostman put post get write 1 by_name ;;;
     console_log (EvReportFail "Billing API" (Some "instanceNotFoundError")))
      (mkWorld stale_rejected
         (CacheJson (delete "Billing API" (cached "abc")))
         [EvWrite (delete "Billing API" (cached "abc")) true;
          EvAxios (PUT "abc") false; EvRead (cached "abc")]).
Proof.
  apply (proj1 (failed_update_restarts put post get write 1 by_name stale "abc"
                  not_found eq_refl eq_refl ltac:(discriminate))
           (mkEntry (Some "Billing API") (Some "abc")) stale_rejected);
    reflexivity.
Defined.

(** On the service where no update succeeds, every nested call restarts. *)
Lemma stuck_restarts (fuel : nat) (w : World unit) :
  cache_file w = CacheJson (cached "abc") \/ cache_file w = CacheJson ∅ ->
  exists w', run_stuck fuel w = OutOfFuel w' /\ count is_put (log w') = fuel + count is_put (log w).
Proof.
  revert w. induction fuel as [|fuel IH]; intros w Hfile.
  - exists w. split; reflexivity.
  - destruct w as [[] file lg]. cbn [cache_file] in Hfile. unfold run_stuck.
    destruct Hfile as [-> | ->].
    + rewrite (cached_update_failed stuck_put stuck_post stuck_get stuck_write fuel by_name
                 (mkWorld tt (CacheJson (cached "abc")) lg)
                 (mkEntry (Some "Billing API") (Some "abc")) "abc" not_found tt
                 eq_refl eq_refl eq_refl eq_refl ltac:(discriminate) eq_refl).
      unfold bind.
      match goal with
      | |- context [syncCollectionToPostman _ _ _ _ fuel by_name ?w1] =>
          destruct (IH w1) as (w' & Hrun & Hcount); [right; reflexivity|]
      end.
      unfold run_stuck in Hrun. rewrite Hrun. exists w'. split; [reflexivity|].
      rewrite Hcount. cbn [log count is_put]. lia.
    + rewrite (listed_update_failed stuck_put stuck_post stuck_get stuck_write fuel by_name
                 (mkWorld tt (CacheJson ∅) lg)
                 (FoundMatch (mkSummary (Some "Billing API") (Some "def") 1))
                 (EvAxios GET true :: EvRead ∅ :: lg) "def" not_found tt tt
                 eq_refl eq_refl (lookup_empty _) eq_refl eq_refl
                 ltac:(discriminate) eq_refl).
      unfold bind.
      match goal with
      | |- context [syncCollectionToPostman _ _ _ _ fuel by_name ?w1] =>
          destruct (IH w1) as (w' & Hrun & Hcount); [right; reflexivity|]
      end.
      unfold run_stuck in Hrun. rewrite Hrun. exists w'. split; [reflexivity|].
      rewrite Hcount. cbn [log count is_put]. lia.
Qed.

(** C1 fails on the code: on a service that rejects every update while the
    listing keeps showing the collection, the call started on a cached
    identifier never returns, whatever the fuel, and by depth 3 it has
    already sent three updates, two of them retries. *)
Lemma retry_is_unbounded :
  ~ (exists fuel w', run_stuck fuel stuck_start = Returned tt w') /\
  count is_put (log (final_world (run_stuck 3 stuck_start))) = 3.
Proof.
  split.
  - intros (fuel & w' & Hrun).
    destruct (stuck_restarts fuel stuck_start) as (w1 & Hstuck & _);
      [left; reflexivity|].
    rewrite Hstuck in Hrun. discriminate.
  - vm_compute. reflexivity.
Qed.



(** C3 fails on the code: without a cache file and with the network down
    the create fails, the call reports the failure and returns, and the
    cache file was not written. *)
Lemma failed_create_writes_nothing :
  exists w',
    run 1 by_name fresh_offline = Returned tt w' /\
    log w' = [EvReportFail "Billing API" None; EvLogCreate None; EvAxios POST false;
              EvLogError None; EvAxios GET false; EvRead ∅] /\
    count is_write (log w') = 0 /\
    cache_file w' = NoFile.
Proof.
  eexists. split; [vm_compute; reflexivity|]. repeat split.
Qed.


(** C7 on the warm cache. *)
Lemma cache_hit_skips_listing_witness :
  (exists evs b,
      log (final_world (run 1 by_name warm))
      = evs ++ EvAxios (PUT "abc") b :: EvRead (cached "abc") :: log warm) /\
  (forall d e1,
      put billing "abc" (env warm) = (Fulfilled d, e1) ->
      exists w',
        run 1 by_name warm = Returned tt w' /\
        List.filter is_request (log w')
        = EvAxios (PUT "abc") true :: List.filter is_request (log warm)) /\
  (listings_follow_miss "Billing API" (log warm) ->
   listings_follow_miss "Billing API" (log (final_world (run 1 by_name warm)))).
Proof.
  apply (cache_hit_skips_listing put post get write 0 by_name warm
           (mkEntry (Some "Billing API") (Some "abc")) "abc");
    [reflexivity | reflexivity | reflexivity | reflexivity | discriminate].
Defined.

(** C7 fails on the code: the cache holds the name with the identifier
    "abc", and because the update of "abc" is rejected the call goes on
    to request the listing and to update "def": three requests, one of
    them a listing. *)
Lemma warm_cache_call_lists_after_failed_update :
  loaded (cache_file stale) !! "Billing API"
  = Some (mkEntry (Some "Billing API") (Some "abc")) /\
  exists w',
    run 2 by_name stale = Returned tt w' /\
    List.filter is_request (log w')
    = [EvAxios (PUT "def") true; EvAxios GET true; EvAxios (PUT "abc") false].
Proof.
  split; [reflexivity|].
  eexists. split; [vm_compute; reflexivity|]. reflexivity.
Qed.

(** C8 on the cache keyed "billing api": the name "Billing API" is not
    found under it and the listing is requested. *)
Lemma names_normalized_keys_exact_witness :
  normalize "billing api" = normalize "Billing API" /\
  loaded (cache_file other_key) !! "billing api"
  = Some (mkEntry (Some "billing api") (Some "abc")) /\
  (exists evs b,
      log (final_world (run 1 by_name other_key))
      = evs ++ EvAxios GET b :: EvRead (loaded (cache_file other_key))
               :: log other_key) /\
  writes_keyed "Billing API" (log (final_world (run 1 by_name other_key))).
Proof.
  pose proof (names_normalized_keys_exact put post get write 0 by_name other_key
                eq_refl eq_refl) as (_ & _ & Hmiss & _).
  pose proof (names_normalized_keys_exact put post get write 1 by_name other_key
                eq_refl eq_refl) as (_ & _ & _ & Hkeyed).
  split; [reflexivity|]. split; [reflexivity|]. split.
  - apply Hmiss. reflexivity.
  - apply Hkeyed. exact I.
Defined.

(** C8 fails on the code: a listed summary whose name is the empty string
    is skipped by the guard of the filter, although its normal form equals
    that of a collection name made of whitespace. *)
Lemma empty_name_is_not_matched :
  normalize "" = normalize " " /\
  name_matches " " (mkSummary (Some "") (Some "id") 0) = false.
Proof. split; reflexivity. Qed.

(** * The further properties on the scripted cases *)

Import Cases.

Lemma matching_ignores_case_and_whitespace_witness :
  name_matches ("BILLING" +:+ "  " +:+ "api") older
  = name_matches ("billing" +:+ "API") older /\
  ("billing" +:+ "API" <> "" ->
   name_matches "Billing API" (mkSummary (Some ("BILLING" +:+ "  " +:+ "api")) None 0)
   = name_matches "Billing API" (mkSummary (Some ("billing" +:+ "API")) None 0)).
Proof.
  exact (matching_ignores_case_and_whitespace "BILLING" "billing" "  " "api" "API"
           older None 0 "Billing API" eq_refl eq_refl eq_refl).
Defined.

Lemma find_by_cases_witness :
  findCollectionByName get "Billing API" stale
  = Returned (FoundMatch relisted)
      (mkWorld (mkScript (puts (env stale)) [] [] []) (cache_file stale)
         (EvAxios GET true :: log stale)).
Proof.
  exact (proj1 (find_by_cases get "Billing API" stale
                  (mkScript (puts (env stale)) [] [] []))
           [relisted] relisted eq_refl eq_refl).
Defined.

Lemma no_match_creates_witness :
  run 1 by_name unlisted
  = created post write by_name unlisted unlisted_got
      [EvAxios GET true; EvRead ∅].
Proof.
  exact (proj1 (no_match_creates put post get write 0 by_name unlisted [other]
                  unlisted_got eq_refl eq_refl eq_refl eq_refl eq_refl)).
Defined.

Lemma cached_item_without_uid_creates_witness :
  run 1 by_name no_uid
  = created post write by_name no_uid unlisted_got
      [EvRead {[ "Billing API" := nameless_item ]}].
Proof.
  exact (proj1 (cached_item_without_uid_creates put post get write 0 by_name no_uid
                  nameless_item eq_refl eq_refl eq_refl eq_refl)).
Defined.


Lemma create_populates_cache_witness :
  let c' := <[ "Billing API" := mkEntry (Some "Billing API") (Some "id1") ]> (∅ : Cache) in
  exists w1,
    run 1 by_name unlisted = Returned tt w1 /\
    cache_file w1 = CacheJson c' /\
    exists evs b,
      log (final_world (run 1 by_name w1))
      = evs ++ EvAxios (PUT "id1") b :: EvRead c' :: log w1.
Proof.
  apply (create_populates_cache put post get write 0 0 by_name unlisted [other]
           (ok_payload "Billing API" "id1") "id1" unlisted_got spent spent);
    try reflexivity. discriminate.
Defined.

Lemma create_without_uid_repeats_witness :
  let c' := <[ "Billing API" := nameless_item ]> (∅ : Cache) in
  exists w1,
    run 1 by_name blank = Returned tt w1 /\
    cache_file w1 = CacheJson c' /\
    run 1 by_name w1 = created post write by_name w1 (env w1) (EvRead c' :: log w1).
Proof.
  apply (create_without_uid_repeats put post get write 0 0 by_name blank [other]
           blank_body blank_got spent spent);
    reflexivity.
Defined.

Lemma stale_cache_heals_witness :
  let c1 := delete "Billing API" (cached "abc") in
  let c2 := <[ "Billing API" := mkEntry (Some "Billing API") (Some "def") ]> c1 in
  run 2 by_name stale
  = Returned tt
      (mkWorld spent (CacheJson c2)
         [EvReportFail "Billing API" (Some "instanceNotFoundError");
          EvReportSuccess (Some "Billing API") (Some "def");
          EvWrite c2 true; EvAxios (PUT "def") true; EvAxios GET true; EvRead c1;
          EvWrite c1 true; EvAxios (PUT "abc") false; EvRead (cached "abc")]).
Proof.
  apply (stale_cache_heals put post get write 0 by_name stale
           (mkEntry (Some "Billing API") (Some "abc")) "abc" "def" not_found
           [relisted] relisted (ok_payload "Billing API" "def")
           stale_rejected stale_rejected stale_listed spent);
    try reflexivity; discriminate.
Defined.

Lemma stale_cache_recreates_witness :
  let c1 := delete "Billing API" (cached "abc") in
  let w1 := mkWorld spent (CacheJson c1)
              [EvWrite c1 true; EvAxios (PUT "abc") false; EvRead (cached "abc")] in
  exists w2,
    created post write by_name w1 spent
      (EvAxios GET true :: EvRead c1 :: log w1)
    = Returned tt w2 /\
    run 2 by_name gone
    = Returned tt
        (mkWorld (env w2) (cache_file w2)
           (EvReportFail "Billing API" (Some "instanceNotFoundError") :: log w2)).
Proof.
  apply (stale_cache_recreates put post get write 0 by_name gone
           (mkEntry (Some "Billing API") (Some "abc")) "abc" not_found [other]
           (mkScript [] [] [listing [other]] []) (mkScript [] [] [listing [other]] [])
           spent);
    try reflexivity. discriminate.
Defined.

Lemma unwritable_cache_retries_same_uid_witness :
  exists evs b,
    log (final_world (run 2 by_name readonly))
    = evs ++ EvAxios (PUT "abc") b :: EvRead (cached "abc")
          :: EvWrite (delete "Billing API" (cached "abc")) false
          :: EvAxios (PUT "abc") false :: EvRead (cached "abc") :: log readonly.
Proof.
  apply (unwritable_cache_retries_same_uid put post get write 0 by_name readonly
           (mkEntry (Some "Billing API") (Some "abc")) "abc" network_error
           (mkScript [] [] [] [false]) spent);
    try reflexivity. discriminate.
Defined.

Lemma first_failure_is_reported_last_witness :
  exists lg,
    log (final_world (run 2 by_name offline))
    = EvReportFail "Billing API" None :: lg /\
    extends (EvAxios (PUT "abc") false :: EvRead (cached "abc") :: log offline) lg.
Proof.
  apply (first_failure_is_reported_last put post get write 1 by_name offline
           (final_world (run 2 by_name offline))
           (mkEntry (Some "Billing API") (Some "abc")) "abc" network_error spent);
    try reflexivity; try discriminate.
Defined.

Lemma isGuid_length_witness :
  exists s, Some sample_guid = Some s /\ (36 <= String.length s <= 38)%nat.
Proof. exact (isGuid_length (Some sample_guid) eq_refl). Defined.

Lemma isGuid_braces_independent_witness :
  isGuid (Some ("{" +:+ sample_guid)) = true /\
  isGuid (Some (sample_guid +:+ "}")) = true /\
  isGuid (Some ("{" +:+ sample_guid +:+ "}")) = true.
Proof. exact (isGuid_braces_independent sample_guid eq_refl eq_refl). Defined.

Lemma output_needs_json_somewhere_witness :
  write_plain (plain_input (Some "out.txt"))
  = ProcessExit 0 (only_json_message "out.txt")
  <-> ~ exists a b, "out.txt" = a +:+ ".json" +:+ b.
Proof.
  apply (output_needs_json_somewhere unit (fun s => s) (fun s _ => Some s)
           (fun _ _ => true) (plain_input (Some "out.txt")) "out.txt");
    [reflexivity | discriminate].
Defined.

Lemma uploadOnly_failures_witness :
  upload_only missing_file 1 None by_name fresh_offline
  = Thrown (loading_failed "") fresh_offline /\
  upload_only missing_file 1 (Some "out.json") by_name fresh_offline
  = Thrown (loading_failed "out.json") fresh_offline.
Proof.
  split.
  - exact (proj1 (uploadOnly_failures string quiet_before missing_file sync_named
                    1 None by_name fresh_offline) eq_refl).
  - exact (proj2 (proj2 (uploadOnly_failures string quiet_before missing_file sync_named
                           1 (Some "out.json") by_name fresh_offline))
             eq_refl fresh_offline ENOENT spent eq_refl eq_refl).
Defined.
